(** * Verification of the queue-worker relay handler

    Shallow embedding of [build/queue-worker/function/handler.go]:
    the [MessageBody] envelope, the [Handle] function and the library
    calls it is made of ([bytes.TrimSpace], [json.Unmarshal],
    [fmt.Sprintf], the NATS client), followed by the properties of the
    handler. *)

From Stdlib Require Import List String Ascii ZArith Lia Bool.
From Stdlib Require Import Strings.Byte Numbers.DecimalString.
Import ListNotations.
Local Open Scope string_scope.
Local Open Scope list_scope.
Local Open Scope Z_scope.

(** Go's [+] on strings. *)
Infix "+++" := String.append (right associativity, at level 60).

(** ** Bytes and strings

    A Go [[]byte] is a [list byte]; a Go [string] is a [string] (a
    sequence of 8-bit characters).  The conversions [string(b)] and
    [[]byte(s)] copy the bytes unchanged. *)

Definition bytes := list byte.

Definition string_of_bytes (b : bytes) : string := string_of_list_byte b.
Definition bytes_of_string (s : string) : bytes := list_byte_of_string s.

Definition len {A} (l : list A) : Z := Z.of_nat (List.length l).

Definition b2z (b : byte) : Z := Z.of_N (Byte.to_N b).

Definition z2b (z : Z) : byte :=
  match Byte.of_N (Z.to_N (z mod 256)) with
  | Some b => b
  | None => x00
  end.

(** ** unicode/utf8 *)

Module utf8.

Definition RuneError : Z := 0xFFFD.
Definition RuneSelf : Z := 0x80.
Definition UTFMax : nat := 4.

(** The entry of the [first] table for a leading byte: an ASCII byte, an
    invalid leading byte, or the size of the sequence with the range
    accepted for its second byte. *)
Inductive first_info :=
| AS
| XX
| Lead (sz : nat) (lo hi : Z).

Definition first (p0 : Z) : first_info :=
  if p0 <? 0x80 then AS
  else if p0 <? 0xC2 then XX
  else if p0 <? 0xE0 then Lead 2 0x80 0xBF
  else if p0 =? 0xE0 then Lead 3 0xA0 0xBF
  else if p0 <? 0xED then Lead 3 0x80 0xBF
  else if p0 =? 0xED then Lead 3 0x80 0x9F
  else if p0 <? 0xF0 then Lead 3 0x80 0xBF
  else if p0 =? 0xF0 then Lead 4 0x90 0xBF
  else if p0 <? 0xF4 then Lead 4 0x80 0xBF
  else if p0 =? 0xF4 then Lead 4 0x80 0x8F
  else XX.

Definition cont (b : Z) : bool := (0x80 <=? b) && (b <=? 0xBF).

(** [utf8.DecodeRune]: the first rune of [p] and its width in bytes;
    [(RuneError, 1)] for an invalid encoding, [(RuneError, 0)] for the
    empty slice. *)
Definition DecodeRune (p : bytes) : Z * nat :=
  match p with
  | [] => (RuneError, 0%nat)
  | p0 :: t =>
    match first (b2z p0) with
    | AS => (b2z p0, 1%nat)
    | XX => (RuneError, 1%nat)
    | Lead sz lo hi =>
      if (List.length p <? sz)%nat then (RuneError, 1%nat) else
      match t with
      | [] => (RuneError, 1%nat)
      | b1 :: t1 =>
        if (b2z b1 <? lo) || (hi <? b2z b1) then (RuneError, 1%nat) else
        if (sz <=? 2)%nat then
          (Z.lor (Z.shiftl (Z.land (b2z p0) 0x1F) 6) (Z.land (b2z b1) 0x3F), 2%nat)
        else
        match t1 with
        | [] => (RuneError, 1%nat)
        | b2 :: t2 =>
          if negb (cont (b2z b2)) then (RuneError, 1%nat) else
          if (sz <=? 3)%nat then
            (Z.lor (Z.lor (Z.shiftl (Z.land (b2z p0) 0x0F) 12)
                          (Z.shiftl (Z.land (b2z b1) 0x3F) 6))
                   (Z.land (b2z b2) 0x3F), 3%nat)
          else
          match t2 with
          | [] => (RuneError, 1%nat)
          | b3 :: _ =>
            if negb (cont (b2z b3)) then (RuneError, 1%nat) else
            (Z.lor (Z.lor (Z.lor (Z.shiftl (Z.land (b2z p0) 0x07) 18)
                                 (Z.shiftl (Z.land (b2z b1) 0x3F) 12))
                          (Z.shiftl (Z.land (b2z b2) 0x3F) 6))
                   (Z.land (b2z b3) 0x3F), 4%nat)
          end
        end
      end
    end
  end.

(** [utf8.RuneStart]: the byte is not a continuation byte. *)
Definition RuneStart (b : byte) : bool :=
  negb (Z.land (b2z b) 0xC0 =? 0x80).

(** The backward search of [DecodeLastRune]: from index [start], at most
    [n] further steps down, stopping on a rune start; the result is the
    index reached, [-1] when the search ran below index 0. *)
Fixpoint find_start (p : bytes) (lim : Z) (n : nat) (start : Z) : Z :=
  if start <? lim then start else
  if RuneStart (nth (Z.to_nat start) p x00) then start else
  match n with
  | O => start - 1
  | S n' => find_start p lim n' (start - 1)
  end.

(** [utf8.DecodeLastRune]: the last rune of [p] and its width. *)
Definition DecodeLastRune (p : bytes) : Z * nat :=
  let end_ := len p in
  if end_ =? 0 then (RuneError, 0%nat) else
  let start := end_ - 1 in
  let r := b2z (nth (Z.to_nat start) p x00) in
  if r <? RuneSelf then (r, 1%nat) else
  let lim := Z.max 0 (end_ - Z.of_nat UTFMax) in
  let start := find_start p lim UTFMax (start - 1) in
  let start := Z.max 0 start in
  let '(r, size) := DecodeRune (skipn (Z.to_nat start) p) in
  if negb (start + Z.of_nat size =? end_) then (RuneError, 1%nat)
  else (r, size).

(** [utf8.EncodeRune]: the UTF-8 encoding of a rune; surrogates and
    values out of range are encoded as [RuneError]. *)
Definition encode3 (r : Z) : bytes :=
  [z2b (Z.lor 0xE0 (Z.shiftr r 12));
   z2b (Z.lor 0x80 (Z.land (Z.shiftr r 6) 0x3F));
   z2b (Z.lor 0x80 (Z.land r 0x3F))].

Definition EncodeRune (r : Z) : bytes :=
  if (0 <=? r) && (r <=? 0x7F) then [z2b r]
  else if (0 <=? r) && (r <=? 0x7FF) then
    [z2b (Z.lor 0xC0 (Z.shiftr r 6)); z2b (Z.lor 0x80 (Z.land r 0x3F))]
  else if (r <? 0) || (0x10FFFF <? r) || ((0xD800 <=? r) && (r <=? 0xDFFF))
  then encode3 RuneError
  else if r <=? 0xFFFF then encode3 r
  else
    [z2b (Z.lor 0xF0 (Z.shiftr r 18));
     z2b (Z.lor 0x80 (Z.land (Z.shiftr r 12) 0x3F));
     z2b (Z.lor 0x80 (Z.land (Z.shiftr r 6) 0x3F));
     z2b (Z.lor 0x80 (Z.land r 0x3F))].

End utf8.

(** ** unicode *)

Module unicode.

(** [unicode.IsSpace]: the Latin-1 spaces, then the [White_Space] range
    table. *)
Definition IsSpace (r : Z) : bool :=
  if (0 <=? r) && (r <=? 0xFF) then
    ((0x09 <=? r) && (r <=? 0x0D)) || (r =? 0x20) || (r =? 0x85) || (r =? 0xA0)
  else
    (r =? 0x1680) || ((0x2000 <=? r) && (r <=? 0x200A))
    || (r =? 0x2028) || (r =? 0x2029) || (r =? 0x202F) || (r =? 0x205F)
    || (r =? 0x3000).

End unicode.

(** ** bytes.TrimSpace

    [TrimSpace s] is [TrimFunc s unicode.IsSpace]: the leading runes for
    which the predicate holds are dropped, then the trailing ones.  (Go
    adds a fast path for ASCII input, with the same result.) *)

Module Bytes.

(** [TrimLeftFunc]: [skip] counts the bytes of the current rune still to
    be dropped. *)
Fixpoint TrimLeft_aux (f : Z -> bool) (skip : nat) (s : bytes) : bytes :=
  match s with
  | [] => []
  | _ :: t =>
    match skip with
    | S k => TrimLeft_aux f k t
    | O =>
      let '(r, size) := utf8.DecodeRune s in
      if f r then TrimLeft_aux f (size - 1) t else s
    end
  end.

Definition TrimLeftFunc (s : bytes) (f : Z -> bool) : bytes :=
  TrimLeft_aux f 0 s.

(** [TrimRightFunc], on the reversed slice [r]: each step decodes the
    last rune of what is left, as [lastIndexFunc] does, and drops it when
    the predicate holds. *)
Fixpoint TrimRight_aux (f : Z -> bool) (skip : nat) (r : bytes) : bytes :=
  match r with
  | [] => []
  | _ :: t =>
    match skip with
    | S k => TrimRight_aux f k t
    | O =>
      let '(c, size) := utf8.DecodeLastRune (rev r) in
      if f c then TrimRight_aux f (size - 1) t else r
    end
  end.

Definition TrimRightFunc (s : bytes) (f : Z -> bool) : bytes :=
  rev (TrimRight_aux f 0 (rev s)).

Definition TrimFunc (s : bytes) (f : Z -> bool) : bytes :=
  TrimRightFunc (TrimLeftFunc s f) f.

Definition TrimSpace (s : bytes) : bytes := TrimFunc s unicode.IsSpace.

End Bytes.

Definition B (s : string) : bytes := bytes_of_string s.

(** ** Errors

    A Go [error] value: the errors of the NATS client, known by their
    text only, and the two error types [json.Unmarshal] returns. *)

Inductive error :=
| NatsError (text : string)
| SyntaxError (msg : string)
| UnmarshalTypeError (Value : string) (Type_ : string)
                     (Struct : string) (Field : string).

(** The [Error()] method. *)
Definition Error (e : error) : string :=
  match e with
  | NatsError text => text
  | SyntaxError msg => msg
  | UnmarshalTypeError v t st f =>
    if ((String.length st =? 0)%nat && (String.length f =? 0)%nat)%bool then
      "json: cannot unmarshal " +++ v +++ " into Go value of type " +++ t
    else
      "json: cannot unmarshal " +++ v +++ " into Go struct field "
        +++ st +++ "." +++ f +++ " of type " +++ t
  end.

(** ** strconv *)

Module strconv.

Definition lowerhex (d : Z) : byte :=
  nth (Z.to_nat d) (B "0123456789abcdef") x00.

Definition hex2 (c : Z) : bytes :=
  [lowerhex (Z.shiftr c 4); lowerhex (Z.land c 0xF)].

(** [strconv.IsPrint] on Latin-1. *)
Definition IsPrint_latin1 (r : Z) : bool :=
  ((0x20 <=? r) && (r <=? 0x7E))
  || ((0xA1 <=? r) && (r <=? 0xFF) && negb (r =? 0xAD)).

(** The text [strconv.Quote] puts between the quotes for a rune below
    256. *)
Definition escapedRune_latin1 (r : Z) : bytes :=
  if (r =? 0x22) || (r =? 0x5C) then [x5c; z2b r]
  else if IsPrint_latin1 r then utf8.EncodeRune r
  else if r =? 0x07 then B "\a"
  else if r =? 0x08 then B "\b"
  else if r =? 0x0C then B "\f"
  else if r =? 0x0A then B "\n"
  else if r =? 0x0D then B "\r"
  else if r =? 0x09 then B "\t"
  else if r =? 0x0B then B "\v"
  else if (r <? 0x20) || (r =? 0x7F) then B "\x" ++ hex2 r
  else B "\u00" ++ hex2 r.

(** [strconv.Quote] on a string of bytes below 128 (the handler quotes
    an ASCII literal only; the table of printable runes above Latin-1 is
    not modelled). *)
Definition Quote (s : string) : string :=
  string_of_bytes
    ([x22] ++ flat_map (fun c => escapedRune_latin1 (b2z c)) (bytes_of_string s)
           ++ [x22]).

(** [strconv.Itoa], which is also what the verb [%d] prints. *)
Definition Itoa (n : Z) : string := NilZero.string_of_int (Z.to_int n).

(** The digits of a decimal literal as a number. *)
Definition digit (c : byte) : Z := b2z c - 0x30.
Definition isDigit (c : byte) : bool := (0x30 <=? b2z c) && (b2z c <=? 0x39).

Definition digits_val (ds : bytes) : Z :=
  fold_left (fun m c => m * 10 + digit c) ds 0.

(** The exponent as [readFloat] accumulates it: digits are dropped once
    the value has reached 10000. *)
Definition exp_val (ds : bytes) : Z :=
  fold_left (fun e c => if e <? 10000 then e * 10 + digit c else e) ds 0.

Fixpoint span (f : byte -> bool) (s : bytes) : bytes * bytes :=
  match s with
  | c :: t => if f c then let '(a, b) := span f t in (c :: a, b) else ([], s)
  | [] => ([], [])
  end.

(** A number literal of the JSON grammar as mantissa digits (integer and
    fraction part together) and decimal exponent. *)
Definition readFloat (s : bytes) : Z * Z :=
  let s := match s with "-"%byte :: t => t | _ => s end in
  let '(ip, s) := span isDigit s in
  let '(fp, s) :=
    match s with
    | "."%byte :: t => span isDigit t
    | _ => ([], s)
    end in
  let e :=
    match s with
    | c :: t =>
      if (b2z c =? 0x65) || (b2z c =? 0x45) then
        match t with
        | "-"%byte :: ds => - exp_val ds
        | "+"%byte :: ds => exp_val ds
        | ds => exp_val ds
        end
      else 0
    | [] => 0
    end in
  (digits_val (ip ++ fp), e - len fp).

(** [ParseFloat(s, 64)] reports [ErrRange] when the value rounds to an
    infinity: when its magnitude is at least [2^1024 - 2^970], half an
    ulp above the largest float64. *)
Definition float64_overflow (s : bytes) : bool :=
  let '(m, e) := readFloat s in
  let T := 2 ^ 1024 - 2 ^ 970 in
  if 0 <=? e then T <=? m * 10 ^ e
  else T * 10 ^ (- e) <=? m.

End strconv.

Definition dquote : string := String "034"%char EmptyString.
Definition newline : string := String "010"%char EmptyString.

(** ** encoding/json *)

Module json.

#[local] Set Warnings "-register-all".

(** A decoded JSON value, as [Unmarshal] stores it in an [interface{}]:
    [nil], [bool], [float64] (kept as its literal), [string],
    [[]interface{}] and [map[string]interface{}] (the members in input
    order; a later member of the same name replaces an earlier one). *)
Inductive JValue :=
| JNull
| JBool (b : bool)
| JNumber (lit : bytes)
| JString (s : string)
| JArray (vs : list JValue)
| JObject (ms : list (string * JValue)).

(** *** Unquoting string literals *)

Definition hexval (c : byte) : option Z :=
  let z := b2z c in
  if (0x30 <=? z) && (z <=? 0x39) then Some (z - 0x30)
  else if (0x61 <=? z) && (z <=? 0x66) then Some (z - 0x61 + 10)
  else if (0x41 <=? z) && (z <=? 0x46) then Some (z - 0x41 + 10)
  else None.

(** [getu4] on the four bytes after the two characters of the escape. *)
Definition getu4 (h1 h2 h3 h4 : byte) : option Z :=
  match hexval h1, hexval h2, hexval h3, hexval h4 with
  | Some a, Some b, Some c, Some d => Some (((a * 16 + b) * 16 + c) * 16 + d)
  | _, _, _, _ => None
  end.

Definition ReplacementChar : Z := 0xFFFD.

Definition IsSurrogate (r : Z) : bool := (0xD800 <=? r) && (r <? 0xE000).

(** [utf16.DecodeRune]. *)
Definition utf16_DecodeRune (r1 r2 : Z) : Z :=
  if (0xD800 <=? r1) && (r1 <? 0xDC00) && (0xDC00 <=? r2) && (r2 <? 0xE000)
  then Z.lor (Z.shiftl (r1 - 0xD800) 10) (r2 - 0xDC00) + 0x10000
  else ReplacementChar.

Definition simple_escape (c : byte) : option byte :=
  match c with
  | x22 | x5c | x2f | x27 => Some c
  | "b"%byte => Some x08
  | "f"%byte => Some x0c
  | "n"%byte => Some x0a
  | "r"%byte => Some x0d
  | "t"%byte => Some x09
  | _ => None
  end.

Definition prepend (a : bytes) (r : option bytes) : option bytes :=
  match r with
  | Some t => Some (a ++ t)
  | None => None
  end.

(** The loop of [unquoteBytes] over the text between the quotes. *)
Fixpoint unquote_loop (s : bytes) : option bytes :=
  match s with
  | [] => Some []
  | c :: r =>
    if b2z c =? 0x5C then
      match r with
      | [] => None
      | e :: r1 =>
        match simple_escape e with
        | Some b => prepend [b] (unquote_loop r1)
        | None =>
          if b2z e =? 0x75 then
            match r1 with
            | h1 :: h2 :: h3 :: h4 :: r2 =>
              match getu4 h1 h2 h3 h4 with
              | None => None
              | Some rr =>
                if IsSurrogate rr then
                  let fallback :=
                    prepend (utf8.EncodeRune ReplacementChar) (unquote_loop r2) in
                  match r2 with
                  | x5c :: "u"%byte :: g1 :: g2 :: g3 :: g4 :: r3 =>
                    match getu4 g1 g2 g3 g4 with
                    | Some rr1 =>
                      let dec := utf16_DecodeRune rr rr1 in
                      if negb (dec =? ReplacementChar)
                      then prepend (utf8.EncodeRune dec) (unquote_loop r3)
                      else fallback
                    | None => fallback
                    end
                  | _ => fallback
                  end
                else prepend (utf8.EncodeRune rr) (unquote_loop r2)
              end
            | _ => None
            end
          else None
        end
      end
    else if (b2z c =? 0x22) || (b2z c <? 0x20) then None
    else if b2z c <? utf8.RuneSelf then prepend [c] (unquote_loop r)
    else
      let '(rr, size) := utf8.DecodeRune s in
      let out := utf8.EncodeRune rr in
      match size with
      | 1%nat => prepend out (unquote_loop r)
      | 2%nat => match r with
                 | _ :: r1 => prepend out (unquote_loop r1)
                 | _ => None
                 end
      | 3%nat => match r with
                 | _ :: _ :: r2 => prepend out (unquote_loop r2)
                 | _ => None
                 end
      | 4%nat => match r with
                 | _ :: _ :: _ :: r3 => prepend out (unquote_loop r3)
                 | _ => None
                 end
      | _ => None
      end
  end.

(** [unquoteBytes]: the text of a quoted JSON string literal, [None]
    where Go returns [ok = false]. *)
Definition unquoteBytes (s : bytes) : option bytes :=
  match s with
  | x22 :: t =>
    match rev t with
    | x22 :: m => unquote_loop (rev m)
    | _ => None
    end
  | _ => None
  end.

(** *** The scanner

    The state machine of [scanner.go], one [step] per input byte.  The
    entries of [parseState] carry, next to Go's parse state, the
    container under construction, and the scanner keeps the bytes of the
    literal being read and the value completed last: this is the
    bookkeeping [decodeState] does on its call stack while it drives the
    same scanner over the same bytes. *)

Inductive state :=
| stateBeginValueOrEmpty | stateBeginValue
| stateBeginStringOrEmpty | stateBeginString
| stateEndValue | stateEndTop
| stateInString | stateInStringEsc
| stateInStringEscU | stateInStringEscU1
| stateInStringEscU12 | stateInStringEscU123
| stateNeg | state1 | state0 | stateDot | stateDot0
| stateE | stateESign | stateE0
| stateT | stateTr | stateTru
| stateF | stateFa | stateFal | stateFals
| stateN | stateNu | stateNul
| stateError.

Inductive parse_state := parseObjectKey | parseObjectValue | parseArrayValue.

(** The container a parse state belongs to: the members read so far
    (latest first), the key waiting for its value, the array elements
    read so far (latest first). *)
Record frame := mkFrame {
  members : list (string * JValue);
  key : option string;
  elems : list JValue
}.

Definition empty_frame : frame := mkFrame [] None [].

Record scanner := mkScanner {
  step : state;
  endTop : bool;
  parseState : list (parse_state * frame);
  err : option error;
  item : bytes;      (* the literal being read, latest byte first *)
  val : JValue       (* the value completed last *)
}.

Definition maxNestingDepth : Z := 10000.

Definition reset : scanner :=
  mkScanner stateBeginValue false [] None [] JNull.

Definition set_step (s : scanner) (st : state) : scanner :=
  mkScanner st (endTop s) (parseState s) (err s) (item s) (val s).

Definition set_val (s : scanner) (v : JValue) : scanner :=
  mkScanner (step s) (endTop s) (parseState s) (err s) (item s) v.

Definition set_parseState (s : scanner) (ps : list (parse_state * frame))
  : scanner :=
  mkScanner (step s) (endTop s) ps (err s) (item s) (val s).

(** A literal begins with byte [c], or goes on with it. *)
Definition beginLiteral (s : scanner) (st : state) (c : byte) : scanner :=
  mkScanner st (endTop s) (parseState s) (err s) [c] (val s).

Definition continue (s : scanner) (st : state) (c : byte) : scanner :=
  mkScanner st (endTop s) (parseState s) (err s) (c :: item s) (val s).

Definition isSpace (c : byte) : bool :=
  match c with
  | x20 | x09 | x0d | x0a => true
  | _ => false
  end.

(** [quoteChar]: a byte, quoted for an error message. *)
Definition quoteChar (c : byte) : string :=
  match c with
  | x27 => "'\''"
  | x22 => "'" +++ dquote +++ "'"
  | _ => "'" +++ string_of_bytes (strconv.escapedRune_latin1 (b2z c)) +++ "'"
  end.

(** [scanner.error]. *)
Definition error_ (s : scanner) (c : byte) (context : string) : scanner :=
  mkScanner stateError (endTop s) (parseState s)
    (Some (SyntaxError ("invalid character " +++ quoteChar c +++ " " +++ context)))
    (item s) (val s).

Definition pushParseState (s : scanner) (c : byte) (newParseState : parse_state)
  : scanner :=
  let s := set_parseState s ((newParseState, empty_frame) :: parseState s) in
  if len (parseState s) <=? maxNestingDepth then s
  else error_ s c "exceeded max depth".

(** [popParseState]; the container that ends becomes the value
    completed last. *)
Definition popParseState (s : scanner) (v : JValue) : scanner :=
  let ps := tl (parseState s) in
  match ps with
  | [] => mkScanner stateEndTop true ps (err s) (item s) v
  | _ => mkScanner stateEndValue (endTop s) ps (err s) (item s) v
  end.

(** The literal read is a string: the text it denotes.  ([decodeState]
    panics where [unquoteBytes] fails; [unquote_item_safe] below shows
    that it does not fail on the literals the scanner hands to it.) *)
Definition unquote_item (it : bytes) : string :=
  match unquoteBytes (rev it) with
  | Some t => string_of_bytes t
  | None => ""
  end.

(** The members of an object frame once the value [v] completed last is
    stored under the waiting key. *)
Definition add_member (f : frame) (v : JValue) : list (string * JValue) :=
  match key f with
  | Some k => (k, v) :: members f
  | None => members f
  end.

Definition stateEndTop_ (s : scanner) (c : byte) : scanner :=
  if negb (isSpace c) then error_ s c "after top-level value" else s.

Definition stateEndValue_ (s : scanner) (c : byte) : scanner :=
  match parseState s with
  | [] =>
    stateEndTop_ (mkScanner stateEndTop true [] (err s) (item s) (val s)) c
  | (ps, f) :: rest =>
    if isSpace c then set_step s stateEndValue else
    match ps with
    | parseObjectKey =>
      if b2z c =? 0x3A then
        set_step
          (set_parseState s
             ((parseObjectValue,
               mkFrame (members f) (Some (unquote_item (item s))) (elems f))
              :: rest))
          stateBeginValue
      else error_ s c "after object key"
    | parseObjectValue =>
      if b2z c =? 0x2C then
        set_step
          (set_parseState s
             ((parseObjectKey, mkFrame (add_member f (val s)) None (elems f))
              :: rest))
          stateBeginString
      else if b2z c =? 0x7D then
        popParseState s (JObject (rev (add_member f (val s))))
      else error_ s c "after object key:value pair"
    | parseArrayValue =>
      if b2z c =? 0x2C then
        set_step
          (set_parseState s
             ((parseArrayValue, mkFrame (members f) (key f) (val s :: elems f))
              :: rest))
          stateBeginValue
      else if b2z c =? 0x5D then
        popParseState s (JArray (rev (val s :: elems f)))
      else error_ s c "after array element"
    end
  end.

Definition stateBeginValue_ (s : scanner) (c : byte) : scanner :=
  if isSpace c then s else
  match c with
  | "{"%byte => pushParseState (set_step s stateBeginStringOrEmpty) c parseObjectKey
  | "["%byte => pushParseState (set_step s stateBeginValueOrEmpty) c parseArrayValue
  | x22 => beginLiteral s stateInString c
  | "-"%byte => beginLiteral s stateNeg c
  | "0"%byte => beginLiteral s state0 c
  | "t"%byte => beginLiteral s stateT c
  | "f"%byte => beginLiteral s stateF c
  | "n"%byte => beginLiteral s stateN c
  | _ =>
    if (0x31 <=? b2z c) && (b2z c <=? 0x39) then beginLiteral s state1 c
    else error_ s c "looking for beginning of value"
  end.

Definition stateBeginValueOrEmpty_ (s : scanner) (c : byte) : scanner :=
  if isSpace c then s
  else if b2z c =? 0x5D then
    (* the empty array: no element is added *)
    popParseState s (JArray [])
  else stateBeginValue_ s c.

Definition stateBeginString_ (s : scanner) (c : byte) : scanner :=
  if isSpace c then s
  else if b2z c =? 0x22 then beginLiteral s stateInString c
  else error_ s c "looking for beginning of object key string".

Definition stateBeginStringOrEmpty_ (s : scanner) (c : byte) : scanner :=
  if isSpace c then s
  else if b2z c =? 0x7D then
    match parseState s with
    | (_, f) :: rest =>
      stateEndValue_ (set_parseState s ((parseObjectValue, f) :: rest)) c
    | [] => stateEndValue_ s c
    end
  else stateBeginString_ s c.

Definition isHex (c : byte) : bool :=
  match hexval c with Some _ => true | None => false end.

(** A number literal ends before byte [c]. *)
Definition endNumber (s : scanner) (c : byte) : scanner :=
  stateEndValue_ (set_val s (JNumber (rev (item s)))) c.

Definition state0_ (s : scanner) (c : byte) : scanner :=
  if b2z c =? 0x2E then continue s stateDot c
  else if (b2z c =? 0x65) || (b2z c =? 0x45) then continue s stateE c
  else endNumber s c.

Definition stateESign_ (s : scanner) (c : byte) : scanner :=
  if strconv.isDigit c then continue s stateE0 c
  else error_ s c "in exponent of numeric literal".

(** One byte of a literal name: [c] must be [want]; [v] is the value of
    the literal when this is its last byte. *)
Definition expect (s : scanner) (c want : byte) (next : state)
    (v : option JValue) (context : string) : scanner :=
  if b2z c =? b2z want then
    match v with
    | Some v => set_val (continue s next c) v
    | None => continue s next c
    end
  else error_ s c context.

(** [scanner.step]. *)
Definition step_ (s : scanner) (c : byte) : scanner :=
  match step s with
  | stateBeginValueOrEmpty => stateBeginValueOrEmpty_ s c
  | stateBeginValue => stateBeginValue_ s c
  | stateBeginStringOrEmpty => stateBeginStringOrEmpty_ s c
  | stateBeginString => stateBeginString_ s c
  | stateEndValue => stateEndValue_ s c
  | stateEndTop => stateEndTop_ s c
  | stateInString =>
    if b2z c =? 0x22 then
      let s := continue s stateEndValue c in
      set_val s (JString (unquote_item (item s)))
    else if b2z c =? 0x5C then continue s stateInStringEsc c
    else if b2z c <? 0x20 then error_ s c "in string literal"
    else continue s stateInString c
  | stateInStringEsc =>
    match c with
    | "b"%byte | "f"%byte | "n"%byte | "r"%byte | "t"%byte
    | x5c | "/"%byte | x22 => continue s stateInString c
    | "u"%byte => continue s stateInStringEscU c
    | _ => error_ s c "in string escape code"
    end
  | stateInStringEscU =>
    if isHex c then continue s stateInStringEscU1 c
    else error_ s c "in \u hexadecimal character escape"
  | stateInStringEscU1 =>
    if isHex c then continue s stateInStringEscU12 c
    else error_ s c "in \u hexadecimal character escape"
  | stateInStringEscU12 =>
    if isHex c then continue s stateInStringEscU123 c
    else error_ s c "in \u hexadecimal character escape"
  | stateInStringEscU123 =>
    if isHex c then continue s stateInString c
    else error_ s c "in \u hexadecimal character escape"
  | stateNeg =>
    if b2z c =? 0x30 then continue s state0 c
    else if (0x31 <=? b2z c) && (b2z c <=? 0x39) then continue s state1 c
    else error_ s c "in numeric literal"
  | state1 =>
    if strconv.isDigit c then continue s state1 c else state0_ s c
  | state0 => state0_ s c
  | stateDot =>
    if strconv.isDigit c then continue s stateDot0 c
    else error_ s c "after decimal point in numeric literal"
  | stateDot0 =>
    if strconv.isDigit c then continue s stateDot0 c
    else if (b2z c =? 0x65) || (b2z c =? 0x45) then continue s stateE c
    else endNumber s c
  | stateE =>
    if (b2z c =? 0x2B) || (b2z c =? 0x2D) then continue s stateESign c
    else stateESign_ s c
  | stateESign => stateESign_ s c
  | stateE0 =>
    if strconv.isDigit c then continue s stateE0 c else endNumber s c
  | stateT => expect s c "r" stateTr None "in literal true (expecting 'r')"
  | stateTr => expect s c "u" stateTru None "in literal true (expecting 'u')"
  | stateTru =>
    expect s c "e" stateEndValue (Some (JBool true))
           "in literal true (expecting 'e')"
  | stateF => expect s c "a" stateFa None "in literal false (expecting 'a')"
  | stateFa => expect s c "l" stateFal None "in literal false (expecting 'l')"
  | stateFal => expect s c "s" stateFals None "in literal false (expecting 's')"
  | stateFals =>
    expect s c "e" stateEndValue (Some (JBool false))
           "in literal false (expecting 'e')"
  | stateN => expect s c "u" stateNu None "in literal null (expecting 'u')"
  | stateNu => expect s c "l" stateNul None "in literal null (expecting 'l')"
  | stateNul =>
    expect s c "l" stateEndValue (Some JNull)
           "in literal null (expecting 'l')"
  | stateError => s
  end.

(** [scanner.eof]. *)
Definition eof (s : scanner) : scanner :=
  match err s with
  | Some _ => s
  | None =>
    if endTop s then s else
    let s := step_ s x20 in
    if endTop s then s else
    match err s with
    | Some _ => s
    | None =>
      mkScanner (step s) (endTop s) (parseState s)
        (Some (SyntaxError "unexpected end of JSON input")) (item s) (val s)
    end
  end.

(** [checkValid]: the scanner after the whole input; [err] is the error
    [checkValid] returns, and [val] the value of a valid input. *)
Definition checkValid (data : bytes) : scanner :=
  eof (fold_left step_ data reset).

Definition Valid (data : bytes) : bool :=
  match err (checkValid data) with
  | None => true
  | Some _ => false
  end.

End json.

(** Test inputs are written with ['] for the double quote. *)
Definition J (s : string) : bytes :=
  map (fun c => match c with x27 => x22 | _ => c end) (B s).

(** ** The routing envelope *)

(** [type MessageBody struct] with its JSON member names. *)
Record MessageBody := mkMessageBody {
  InboxId : string;        (* `json:"inbox_id"` *)
  Output : json.JValue;    (* `json:"output"`, an interface{} *)
  Runner : string          (* `json:"runner"` *)
}.

(** [var messageBody MessageBody]: the zero value. *)
Definition zero_MessageBody : MessageBody := mkMessageBody "" json.JNull "".

Module decode.
Import json.

Inductive field := FInboxId | FOutput | FRunner.

Definition fields : list field := [FInboxId; FOutput; FRunner].

Definition name (f : field) : string :=
  match f with
  | FInboxId => "inbox_id"
  | FOutput => "output"
  | FRunner => "runner"
  end.

Definition caseMask (b : byte) : Z := Z.land (b2z b) 0xDF.

Definition isLetter (b : byte) : bool :=
  ((0x61 <=? b2z b) && (b2z b <=? 0x7A)) || ((0x41 <=? b2z b) && (b2z b <=? 0x5A)).

(** [asciiEqualFold]: letters compared without case, other bytes
    exactly. *)
Fixpoint asciiEqualFold (s t : bytes) : bool :=
  match s, t with
  | [], [] => true
  | sb :: s', tb :: t' =>
    (if b2z sb =? b2z tb then true
     else if isLetter sb then caseMask sb =? caseMask tb
     else false) && asciiEqualFold s' t'
  | _, _ => false
  end.

(** [simpleLetterEqualFold], for names made of letters only. *)
Fixpoint simpleLetterEqualFold (s t : bytes) : bool :=
  match s, t with
  | [], [] => true
  | sb :: s', tb :: t' => (caseMask sb =? caseMask tb) && simpleLetterEqualFold s' t'
  | _, _ => false
  end.

(** The comparison [foldFunc] selects for a member name: none of the
    three names has a [k] or an [s]; [inbox_id] has a byte that is not a
    letter. *)
Definition equalFold (f : field) (k : string) : bool :=
  match f with
  | FInboxId => asciiEqualFold (B (name f)) (bytes_of_string k)
  | FOutput | FRunner => simpleLetterEqualFold (B (name f)) (bytes_of_string k)
  end.

(** The struct field a key of the input selects: the field of that very
    name or else the first one equal to it under folding. *)
Definition lookup (k : string) : option field :=
  match find (fun f => String.eqb (name f) k) fields with
  | Some f => Some f
  | None => find (fun f => equalFold f k) fields
  end.

Definition saveError (saved : option error) (e : error) : option error :=
  match saved with
  | None => Some e
  | Some _ => saved
  end.

(** The [Value] of the [UnmarshalTypeError] for a JSON value that a Go
    string cannot hold, [None] for a JSON string or [null]. *)
Definition mismatch (v : JValue) : option string :=
  match v with
  | JNull | JString _ => None
  | JBool _ => Some "bool"
  | JNumber _ => Some "number"
  | JArray _ => Some "array"
  | JObject _ => Some "object"
  end.

(** [literalStore] and its siblings on a field of type [string]. *)
Definition store_string (fname : string) (old : string) (v : JValue)
  : string * option error :=
  match v with
  | JString s => (s, None)
  | _ =>
    (old,
     match mismatch v with
     | Some what => Some (UnmarshalTypeError what "string" "MessageBody" fname)
     | None => None
     end)
  end.

(** The first number of a value, in input order, that [convertNumber]
    rejects as out of the range of a float64. *)
Fixpoint range_error (v : JValue) : option bytes :=
  match v with
  | JNumber lit => if strconv.float64_overflow lit then Some lit else None
  | JArray vs =>
    (fix go (l : list JValue) : option bytes :=
       match l with
       | [] => None
       | x :: l' =>
         match range_error x with
         | Some e => Some e
         | None => go l'
         end
       end) vs
  | JObject ms =>
    (fix go (l : list (string * JValue)) : option bytes :=
       match l with
       | [] => None
       | (_, x) :: l' =>
         match range_error x with
         | Some e => Some e
         | None => go l'
         end
       end) ms
  | _ => None
  end.

(** [valueInterface] on the field of type [interface{}]. *)
Definition store_interface (fname : string) (v : JValue) : JValue * option error :=
  (v,
   match range_error v with
   | Some lit =>
     Some (UnmarshalTypeError ("number " +++ string_of_bytes lit) "float64"
                              "MessageBody" fname)
   | None => None
   end).

Definition decodeState := (MessageBody * option error)%type.

(** One member of the input object: a key that selects no field is
    skipped; an error is saved and decoding goes on. *)
Definition member (d : decodeState) (kv : string * JValue) : decodeState :=
  let '(v, saved) := d in
  let '(k, x) := kv in
  match lookup k with
  | None => d
  | Some FInboxId =>
    let '(s, e) := store_string (name FInboxId) (InboxId v) x in
    (mkMessageBody s (Output v) (Runner v),
     match e with Some e => saveError saved e | None => saved end)
  | Some FOutput =>
    let '(o, e) := store_interface (name FOutput) x in
    (mkMessageBody (InboxId v) o (Runner v),
     match e with Some e => saveError saved e | None => saved end)
  | Some FRunner =>
    let '(s, e) := store_string (name FRunner) (Runner v) x in
    (mkMessageBody (InboxId v) (Output v) s,
     match e with Some e => saveError saved e | None => saved end)
  end.

(** [decodeState.object] on the struct. *)
Definition object (ms : list (string * JValue)) (v : MessageBody) : decodeState :=
  fold_left member ms (v, None).

(** [decodeState.value] on the struct: an object is decoded member by
    member, [null] leaves the struct as it is, any other value is a type
    error. *)
Definition value (x : JValue) (v : MessageBody) : decodeState :=
  match x with
  | JObject ms => object ms v
  | JNull => (v, None)
  | JBool _ => (v, Some (UnmarshalTypeError "bool" "function.MessageBody" "" ""))
  | JNumber _ => (v, Some (UnmarshalTypeError "number" "function.MessageBody" "" ""))
  | JString _ => (v, Some (UnmarshalTypeError "string" "function.MessageBody" "" ""))
  | JArray _ => (v, Some (UnmarshalTypeError "array" "function.MessageBody" "" ""))
  end.

End decode.

(** [json.Unmarshal(data, &v)]: the struct after the call and the error
    returned.  Nothing is decoded from an input that is not valid
    JSON. *)
Definition json_Unmarshal (data : bytes) (v : MessageBody)
  : MessageBody * option error :=
  let scan := json.checkValid data in
  match json.err scan with
  | Some e => (v, Some e)
  | None => decode.value (json.val scan) v
  end.

(** ** The handler and its environment *)

(** [handler.Request] and [handler.Response] of the function template:
    the fields the handler reads and writes. *)
Record Request := mkRequest { req_Body : bytes }.

Record Response := mkResponse { Body : bytes; StatusCode : Z }.

Definition StatusOK : Z := 200.
Definition StatusInternalServerError : Z := 500.

(** The NATS client as the handler sees it: [PublishRequest] on a
    connection, and [Connect], which gives a connection or an error. *)
Record Conn := mkConn {
  conn_PublishRequest : string -> string -> bytes -> option error
}.

Record Nats := mkNats {
  nats_Connect : string -> string -> Conn + error
}.

(** An operand of [log.Printf]. *)
Inductive arg :=
| ArgInt (n : Z)
| ArgString (s : string)
| ArgBytes (b : bytes)
| ArgError (e : error).

(** What an invocation does to the outside, in order. *)
Inductive event :=
| EvPrintln (s : string)
| EvLogPrintf (format : string) (args : list arg)
| EvConnect (url creds : string)
| EvClose
| EvUnmarshal (data : bytes)
| EvPublishRequest (subj reply : string) (data : bytes).

(** Computations that append to the trace of events. *)
Definition M (A : Type) : Type := list event -> A * list event.

Definition ret {A} (a : A) : M A := fun t => (a, t).

Definition bind {A B} (m : M A) (k : A -> M B) : M B :=
  fun t => let '(a, t') := m t in k a t'.

Definition emit (e : event) : M unit := fun t => (tt, t ++ [e]).

Notation "x <- m ;; k" := (bind m (fun x => k))
  (at level 61, m at next level, right associativity).
Notation "m ;;; k" := (bind m (fun _ => k))
  (at level 61, right associativity).

(** [defer f()]: [f] runs when the surrounding function returns. *)
Definition defer {A} (f : M unit) (body : M A) : M A :=
  a <- body ;; f ;;; ret a.

Definition run {A} (m : M A) : A * list event := m [].

Definition fmt_Println (s : string) : M unit := emit (EvPrintln s).

Definition log_Printf (format : string) (args : list arg) : M unit :=
  emit (EvLogPrintf format args).

Definition Connect (n : Nats) (url creds : string) : M (Conn + error) :=
  emit (EvConnect url creds) ;;; ret (nats_Connect n url creds).

Definition Close (nc : Conn) : M unit := emit EvClose.

Definition Unmarshal (data : bytes) (v : MessageBody)
  : M (MessageBody * option error) :=
  emit (EvUnmarshal data) ;;; ret (json_Unmarshal data v).

Definition PublishRequest (nc : Conn) (subj reply : string) (data : bytes)
  : M (option error) :=
  emit (EvPublishRequest subj reply data) ;;;
  ret (conn_PublishRequest nc subj reply data).

(** The error of a call that returns a value or an error. *)
Definition errOf {A} (r : A + error) : option error :=
  match r with
  | inl _ => None
  | inr e => Some e
  end.

(** The message extraction of [Handle] (the [msg] variable): the
    trimmed body, or the default message for an empty body. *)
Definition message (body : bytes) : string :=
  let msg := "default message" in
  if len body >? 0 then string_of_bytes (Bytes.TrimSpace body) else msg.

Definition url : string := "tls://connect.ngs.global".
Definition creds : string := "/var/openfaas/secrets/nts-tkn".

(** [Handle]: a function invocation. *)
Definition Handle (nats : Nats) (req : Request) : M (Response * option error) :=
  fmt_Println ("Received body: " +++ string_of_bytes (req_Body req)) ;;;
  let msg := message (req_Body req) in
  r <- Connect nats url creds ;;
  let err := errOf r in
  match r with
  | inr e =>
    (* fmt.Sprintf("can not connect to nats: %s", err) *)
    let errMsg := "can not connect to nats: " +++ Error e in
    log_Printf errMsg [] ;;;
    ret (mkResponse (bytes_of_string errMsg) StatusInternalServerError, err)
  | inl nc =>
    defer (Close nc) (
      log_Printf "request body: %s" [ArgBytes (req_Body req)] ;;;
      u <- Unmarshal (req_Body req) zero_MessageBody ;;
      let '(messageBody, jsonErr) := u in
      match jsonErr with
      | Some je =>
        log_Printf "Error unmarshalling request body: %s" [ArgError je] ;;;
        ret (mkResponse (B "Error unmarshalling request body")
                        StatusInternalServerError, err)
      | None =>
        let inboxId := InboxId messageBody in
        let runner := Runner messageBody in
        log_Printf ("Publishing %d bytes to: %q" +++ newline)
                   [ArgInt (Z.of_nat (String.length msg));
                    ArgString (InboxId messageBody)] ;;;
        err <- PublishRequest nc (runner +++ ".response") inboxId
                              (bytes_of_string msg) ;;
        match err with
        | Some e =>
          log_Printf "Error publishing to nats: %s" [ArgError e] ;;;
          (* fmt.Sprintf("can not publish to NATS: %s", err) *)
          ret (mkResponse
                 (bytes_of_string ("can not publish to NATS: " +++ Error e))
                 StatusInternalServerError, err)
        | None =>
          (* fmt.Sprintf("Published %d bytes to: %q", len(msg), "runner") *)
          ret (mkResponse
                 (bytes_of_string
                    ("Published " +++ strconv.Itoa (Z.of_nat (String.length msg))
                       +++ " bytes to: " +++ strconv.Quote "runner"))
                 StatusOK, None)
        end
      end)
  end.

(** The publish calls of a trace. *)
Definition publishes (t : list event) : list (string * string * bytes) :=
  flat_map (fun e => match e with
                     | EvPublishRequest s r d => [(s, r, d)]
                     | _ => []
                     end) t.

Definition is_unmarshal (e : event) : bool :=
  match e with EvUnmarshal _ => true | _ => false end.

Definition is_close (e : event) : bool :=
  match e with EvClose => true | _ => false end.

(** Environments for the examples: a broker that accepts everything, one
    that refuses the connection, one that refuses to publish. *)
Definition nats_ok : Nats := mkNats (fun _ _ => inl (mkConn (fun _ _ _ => None))).
Definition nats_down (text : string) : Nats :=
  mkNats (fun _ _ => inr (NatsError text)).
Definition nats_nopub (text : string) : Nats :=
  mkNats (fun _ _ => inl (mkConn (fun _ _ _ => Some (NatsError text)))).


(** ** Notions the properties are stated with *)

(** White space only: UTF-8 encodings of white-space runes, one after
    the other. *)
Inductive all_space : bytes -> Prop :=
| all_space_nil : all_space []
| all_space_cons r s :
    unicode.IsSpace r = true -> all_space s ->
    all_space (utf8.EncodeRune r ++ s).

(** The members of a JSON object; no members for any other value. *)
Definition members_of (v : json.JValue) : list (string * json.JValue) :=
  match v with
  | json.JObject ms => ms
  | _ => []
  end.

(** The JSON value [v] has no member for the struct field [f]. *)
Definition omits (f : decode.field) (v : json.JValue) : Prop :=
  Forall (fun kv => decode.lookup (fst kv) <> Some f) (members_of v).

(** A member the decoder stores, or skips, without an error: a string or
    [null] for the two string fields, numbers within the range of a
    float64 for the output field, anything under any other key. *)
Definition clean_member (kv : string * json.JValue) : Prop :=
  match decode.lookup (fst kv) with
  | Some decode.FOutput => decode.range_error (snd kv) = None
  | Some _ => decode.mismatch (snd kv) = None
  | None => True
  end.

(** A JSON value the envelope can be decoded from: [null], or an object
    of clean members. *)
Definition decodable (v : json.JValue) : Prop :=
  match v with
  | json.JNull => True
  | json.JObject ms => Forall clean_member ms
  | _ => False
  end.

(** The result and the trace of an invocation. *)
Definition response (nats : Nats) (req : Request) : Response :=
  fst (fst (run (Handle nats req))).

Definition returned_error (nats : Nats) (req : Request) : option error :=
  snd (fst (run (Handle nats req))).

Definition trace (nats : Nats) (req : Request) : list event :=
  snd (run (Handle nats req)).

(** The events every invocation starts with. *)
Definition prologue (body : bytes) : list event :=
  [EvPrintln ("Received body: " +++ string_of_bytes body); EvConnect url creds].

(** [sub] occurs in [s]. *)
Definition contains (s sub : string) : Prop :=
  exists pre post, s = pre +++ sub +++ post.

(** *** Two sentences of the specification, as they are written *)

(** An empty body is accepted and the default message is published. *)
Definition empty_body_is_published (nats : Nats) (req : Request) : Prop :=
  req_Body req = [] ->
  StatusCode (response nats req) = StatusOK /\
  exists subj reply,
    publishes (trace nats req) = [(subj, reply, B "default message")].

(** Any valid JSON without a runner or inbox_id member decodes, the
    missing fields are empty, and the publish goes ahead. *)
Definition valid_json_without_fields_decodes (nats : Nats) (req : Request)
  : Prop :=
  let v := json.val (json.checkValid (req_Body req)) in
  json.Valid (req_Body req) = true ->
  omits decode.FRunner v \/ omits decode.FInboxId v ->
  exists mb,
    json_Unmarshal (req_Body req) zero_MessageBody = (mb, None) /\
    (omits decode.FRunner v -> Runner mb = "") /\
    (omits decode.FInboxId v -> InboxId mb = "") /\
    publishes (trace nats req)
    = [(Runner mb +++ ".response", InboxId mb,
        bytes_of_string (message (req_Body req)))].

(** *** String literals the scanner accepts *)

(** The escapes of [stateInStringEsc], [\u] apart. *)
Definition is_escape (c : byte) : bool :=
  match c with
  | "b"%byte | "f"%byte | "n"%byte | "r"%byte | "t"%byte
  | x5c | "/"%byte | x22 => true
  | _ => false
  end.

(** The text between the quotes of a string literal, as the string
    states of the scanner accept it: no quote, no control character, and
    a backslash only in front of an escape or of [u] and four hexadecimal
    digits. *)
Fixpoint scanned_string (w : bytes) : bool :=
  match w with
  | [] => true
  | c :: r =>
    if b2z c =? 0x5C then
      match r with
      | [] => false
      | e :: r1 =>
        if is_escape e then scanned_string r1
        else if b2z e =? 0x75 then
          match r1 with
          | h1 :: h2 :: h3 :: h4 :: r2 =>
            json.isHex h1 && json.isHex h2 && json.isHex h3 && json.isHex h4
            && scanned_string r2
          | _ => false
          end
        else false
      end
    else if (b2z c =? 0x22) || (b2z c <? 0x20) then false
    else scanned_string r
  end.

(** What the scanner has read of a string literal when it is in state
    [st]: the opening quote, a scanned text, and the beginning of an
    escape. *)
Definition string_prefix (st : json.state) (it : bytes) : Prop :=
  match st with
  | json.stateInString =>
    exists w, rev it = x22 :: w /\ scanned_string w = true
  | json.stateInStringEsc =>
    exists w, rev it = x22 :: w ++ [x5c] /\ scanned_string w = true
  | json.stateInStringEscU =>
    exists w, rev it = x22 :: w ++ [x5c; "u"%byte] /\ scanned_string w = true
  | json.stateInStringEscU1 =>
    exists w h1, rev it = x22 :: w ++ [x5c; "u"%byte; h1] /\
                 json.isHex h1 = true /\ scanned_string w = true
  | json.stateInStringEscU12 =>
    exists w h1 h2, rev it = x22 :: w ++ [x5c; "u"%byte; h1; h2] /\
                    json.isHex h1 = true /\ json.isHex h2 = true /\
                    scanned_string w = true
  | json.stateInStringEscU123 =>
    exists w h1 h2 h3, rev it = x22 :: w ++ [x5c; "u"%byte; h1; h2; h3] /\
                       json.isHex h1 = true /\ json.isHex h2 = true /\
                       json.isHex h3 = true /\ scanned_string w = true
  | _ => True
  end.

(** A complete string literal. *)
Definition string_literal (it : bytes) : Prop :=
  exists w, rev it = x22 :: w ++ [x22] /\ scanned_string w = true.

(** No parse state is an object key but, possibly, the topmost; and
    while an object key is awaited or read the scanner is in one of the
    string states, or at the end of the key with the key as its item. *)
Definition key_states (s : json.scanner) : Prop :=
  Forall (fun pf => fst pf <> json.parseObjectKey) (tl (json.parseState s)) /\
  match json.parseState s with
  | (json.parseObjectKey, _) :: _ =>
    match json.step s with
    | json.stateBeginStringOrEmpty | json.stateBeginString
    | json.stateInString | json.stateInStringEsc
    | json.stateInStringEscU | json.stateInStringEscU1
    | json.stateInStringEscU12 | json.stateInStringEscU123
    | json.stateError => True
    | json.stateEndValue => string_literal (json.item s)
    | _ => False
    end
  | _ => True
  end.

(** The topmost parse state is not an object key. *)
Definition top_not_key (s : json.scanner) : Prop :=
  match json.parseState s with
  | (json.parseObjectKey, _) :: _ => False
  | _ => True
  end.

(** The invariant of the scanner that makes unquoting safe. *)
Definition scanner_inv (s : json.scanner) : Prop :=
  string_prefix (json.step s) (json.item s) /\ key_states s.

(** *** Inputs of the examples *)

(** A routing envelope, with white space around it. *)
Definition envelope_abc123 : bytes :=
  J " {'inbox_id': 'abc123', 'runner': 'workerA', 'output': {'lines': [1, 2.5, null]}} ".

(** White space only: space, tab, U+3000, line feed, U+00A0. *)
Definition blanks : bytes := [x20; x09; xe3; x80; x80; x0a; xc2; xa0].

(** ** Notions of the further properties *)

Definition is_connect (e : event) : bool :=
  match e with EvConnect _ _ => true | _ => false end.

(** The end of the top-level value and the error are reflected in the
    state of the scanner. *)
Definition scanner_flags (s : json.scanner) : Prop :=
  (json.endTop s = true ->
   json.step s = json.stateEndTop \/ json.step s = json.stateError) /\
  (json.step s = json.stateError <-> json.err s <> None).

(** The scanner is inside the top-level value and has met no error. *)
Definition live (s : json.scanner) : Prop :=
  json.endTop s = false /\ json.err s = None.

(** A byte below 128 that is no white-space rune. *)
Definition plain_ascii (c : byte) : bool :=
  (b2z c <? 128) && negb (unicode.IsSpace (b2z c)).

(** JSON white space only: space, tab, carriage return, line feed. *)
Definition json_ws (ws : bytes) : Prop :=
  Forall (fun c => json.isSpace c = true) ws.

(** An ASCII capital letter as the small letter, any other byte as it is. *)
Definition ascii_lower (b : byte) : byte :=
  if (0x41 <=? b2z b) && (b2z b <=? 0x5A) then z2b (b2z b + 32) else b.

Definition lower (k : string) : bytes := map ascii_lower (bytes_of_string k).

Definition field_eqb (f g : decode.field) : bool :=
  match f, g with
  | decode.FInboxId, decode.FInboxId
  | decode.FOutput, decode.FOutput
  | decode.FRunner, decode.FRunner => true
  | _, _ => false
  end.

(** The member is a string for the field [f]. *)
Definition string_for (f : decode.field) (kv : string * json.JValue) : bool :=
  match decode.lookup (fst kv), snd kv with
  | Some g, json.JString _ => field_eqb g f
  | _, _ => false
  end.

(** The string of the last member that is a string for [f]. *)
Definition last_string (f : decode.field) (ms : list (string * json.JValue))
  : option string :=
  match find (string_for f) (rev ms) with
  | Some (_, json.JString s) => Some s
  | _ => None
  end.

(** The string a field of the envelope gets from the members [ms]. *)
Definition field_string (f : decode.field) (ms : list (string * json.JValue))
  : string :=
  match last_string f ms with
  | Some s => s
  | None => ""
  end.

(** An envelope with the runner under three spellings of the key, the
    last one a number, and with white space around it. *)
Definition envelope_spellings : bytes :=
  J "  {'Runner': 'w1', 'INBOX_ID': 'in7', 'RUNNER': 'w2', 'runner': null}  ".

(** * Properties *)

(** ** Examples of the library models *)

Example TrimSpace_ex1 : Bytes.TrimSpace (B "  X  ") = B "X".
Proof. reflexivity. Qed.

Example Itoa_ex : strconv.Itoa 15 = "15" /\ strconv.Itoa 0 = "0".
Proof. split; reflexivity. Qed.

Example Quote_ex : strconv.Quote "runner" = dquote +++ "runner" +++ dquote.
Proof. reflexivity. Qed.

Example float64_overflow_ex :
  strconv.float64_overflow (B "1e999") = true /\
  strconv.float64_overflow (B "-1.5E+308") = false /\
  strconv.float64_overflow (B "1.8e308") = true /\
  strconv.float64_overflow (B "0.0001e-5") = false.
Proof. repeat split; vm_compute; reflexivity. Qed.

Example unquote_ex1 :
  json.unquoteBytes ([x22] ++ B "a\n\u00e9\ud83d\ude00\ud83dz\/" ++ [x22])
  = Some (B "a" ++ [x0a; xc3; xa9; xf0; x9f; x98; x80; xef; xbf; xbd]
            ++ B "z/").
Proof. vm_compute. reflexivity. Qed.

Example unquote_ex2 :
  json.unquoteBytes ([x22; xc3; x28; xe2; x82; xac; x22])
  = Some [xef; xbf; xbd; x28; xe2; x82; xac].
Proof. vm_compute. reflexivity. Qed.

Example TrimSpace_unicode :
  Bytes.TrimSpace ([xc2; xa0; xe2; x80; x80; x20] ++ B "A B" ++ [xe3; x80; x80; x0a; xc2; x85])
  = B "A B".
Proof. vm_compute. reflexivity. Qed.

(** A byte that is no valid UTF-8 is no white space. *)
Example TrimSpace_invalid_utf8 :
  Bytes.TrimSpace [x20; x80; xe2; x80] = [x80; xe2; x80].
Proof. vm_compute. reflexivity. Qed.

Example float64_boundary :
  strconv.float64_overflow (B "1.7976931348623158e308") = false /\
  strconv.float64_overflow (B "1.7976931348623159e308") = true /\
  strconv.float64_overflow (B "-1e309") = true /\
  strconv.float64_overflow (B "0e999") = false.
Proof. repeat split; vm_compute; reflexivity. Qed.

Example checkValid_value :
  json.val (json.checkValid (J " {'a': [1, -2.5e3, true, null, []], 'b': {'c': 'x\ty'}} "))
  = json.JObject
      [("a", json.JArray [json.JNumber (B "1"); json.JNumber (B "-2.5e3");
                          json.JBool true; json.JNull; json.JArray []]);
       ("b", json.JObject [("c", json.JString (string_of_bytes [x78; x09; x79]))])]
  /\ json.Valid (J " {'a': [1, -2.5e3, true, null, []], 'b': {'c': 'x\ty'}} ") = true.
Proof. split; vm_compute; reflexivity. Qed.

Example checkValid_errors :
  json.err (json.checkValid (B "")) = Some (SyntaxError "unexpected end of JSON input") /\
  json.err (json.checkValid (B "hello"))
  = Some (SyntaxError "invalid character 'h' looking for beginning of value") /\
  json.err (json.checkValid (B "{} x"))
  = Some (SyntaxError "invalid character 'x' after top-level value") /\
  json.err (json.checkValid (B "[1,]"))
  = Some (SyntaxError "invalid character ']' looking for beginning of value") /\
  json.err (json.checkValid (J "{'a' 1}"))
  = Some (SyntaxError "invalid character '1' after object key") /\
  json.err (json.checkValid (B "01"))
  = Some (SyntaxError "invalid character '1' after top-level value") /\
  json.err (json.checkValid (J "{'a':"))
  = Some (SyntaxError "unexpected end of JSON input").
Proof. repeat split; vm_compute; reflexivity. Qed.

Example Unmarshal_envelope :
  json_Unmarshal envelope_abc123 zero_MessageBody
  = (mkMessageBody "abc123"
       (json.JObject
          [("lines", json.JArray [json.JNumber (B "1"); json.JNumber (B "2.5");
                                  json.JNull])])
       "workerA", None).
Proof. vm_compute. reflexivity. Qed.

(** Keys match the field names without regard to case; an unknown key is
    skipped; the last member of a name wins. *)
Example Unmarshal_keys :
  json_Unmarshal
    (J "{'RUNNER': 'a', 'Inbox_ID': 'b', 'inbox-id': 'c', 'runner': 'd', 'runner': 'e'}")
    zero_MessageBody
  = (mkMessageBody "b" json.JNull "e", None).
Proof. vm_compute. reflexivity. Qed.

Example Unmarshal_null :
  json_Unmarshal (B "null") zero_MessageBody = (zero_MessageBody, None).
Proof. vm_compute. reflexivity. Qed.

Example Unmarshal_null_member :
  json_Unmarshal (J "{'runner': null, 'inbox_id': 'in-1'}") zero_MessageBody
  = (mkMessageBody "in-1" json.JNull "", None).
Proof. vm_compute. reflexivity. Qed.

Example Unmarshal_type_errors :
  snd (json_Unmarshal (B "[]") zero_MessageBody)
  = Some (UnmarshalTypeError "array" "function.MessageBody" "" "") /\
  snd (json_Unmarshal (B "12") zero_MessageBody)
  = Some (UnmarshalTypeError "number" "function.MessageBody" "" "") /\
  json_Unmarshal (J "{'inbox_id': 5, 'runner': 'r1'}") zero_MessageBody
  = (mkMessageBody "" json.JNull "r1",
     Some (UnmarshalTypeError "number" "string" "MessageBody" "inbox_id")) /\
  snd (json_Unmarshal (J "{'output': [1e999]}") zero_MessageBody)
  = Some (UnmarshalTypeError "number 1e999" "float64" "MessageBody" "output") /\
  snd (json_Unmarshal (J "{'other': [1e999]}") zero_MessageBody) = None.
Proof. repeat split; vm_compute; reflexivity. Qed.

Example Error_texts :
  Error (UnmarshalTypeError "array" "function.MessageBody" "" "")
  = "json: cannot unmarshal array into Go value of type function.MessageBody" /\
  Error (UnmarshalTypeError "number" "string" "MessageBody" "inbox_id")
  = "json: cannot unmarshal number into Go struct field MessageBody.inbox_id of type string".
Proof. split; reflexivity. Qed.

(** ** Facts about bytes and UTF-8 *)

Lemma bytes_of_string_of_bytes b : bytes_of_string (string_of_bytes b) = b.
Proof. apply list_byte_of_string_of_list_byte. Qed.

Lemma b2z_range b : 0 <= b2z b < 256.
Proof. destruct b; vm_compute; split; congruence. Qed.

Lemma z2b_b2z b : z2b (b2z b) = b.
Proof. destruct b; reflexivity. Qed.

Lemma z2b_eq b z : z = b2z b -> z2b z = b.
Proof. intros ->. apply z2b_b2z. Qed.

Lemma land_shiftl_small a b n :
  0 <= n -> 0 <= b < 2 ^ n -> Z.land (Z.shiftl a n) b = 0.
Proof.
  intros Hn Hb. apply Z.bits_inj'. intros k Hk.
  rewrite Z.land_spec, Z.bits_0.
  destruct (Z.lt_ge_cases k n).
  - rewrite Z.shiftl_spec_low by lia. reflexivity.
  - rewrite <- (Z.mod_small b (2 ^ n)) by lia.
    rewrite Z.mod_pow2_bits_high by lia. apply andb_false_r.
Qed.

Lemma lor_shiftl_add a b n :
  0 <= n -> 0 <= b < 2 ^ n -> Z.lor (Z.shiftl a n) b = a * 2 ^ n + b.
Proof.
  intros Hn Hb.
  rewrite <- Z.lxor_lor, <- Z.add_nocarry_lxor by (apply land_shiftl_small; lia).
  rewrite Z.shiftl_mul_pow2 by lia. reflexivity.
Qed.

Lemma lor_const_add c b n :
  0 <= n -> 0 <= b < 2 ^ n -> c mod 2 ^ n = 0 -> Z.lor c b = c + b.
Proof.
  intros Hn Hb Hc.
  assert (c = Z.shiftl (c / 2 ^ n) n) as E.
  { rewrite Z.shiftl_mul_pow2 by lia.
    pose proof (Z.div_mod c (2 ^ n)). lia. }
  rewrite E at 1. rewrite lor_shiftl_add by lia.
  pose proof (Z.div_mod c (2 ^ n)). lia.
Qed.

Lemma land_low a n : 0 <= n -> Z.land a (Z.ones n) = a mod 2 ^ n.
Proof. intros. apply Z.land_ones. lia. Qed.

Ltac arith := Z.div_mod_to_equations; lia.

Lemma rune2 a b : 0 <= b < 64 -> Z.lor (Z.shiftl a 6) b = a * 64 + b.
Proof. intros. now rewrite (lor_shiftl_add a b 6) by lia. Qed.

Lemma rune3 a b c :
  0 <= b < 64 -> 0 <= c < 64 ->
  Z.lor (Z.lor (Z.shiftl a 12) (Z.shiftl b 6)) c = a * 4096 + b * 64 + c.
Proof.
  intros. rewrite (Z.shiftl_mul_pow2 b 6) by lia.
  rewrite (lor_shiftl_add a (b * 2 ^ 6) 12) by lia.
  rewrite (lor_const_add _ c 6); try lia.
  arith.
Qed.

Lemma rune4 a b c d :
  0 <= b < 64 -> 0 <= c < 64 -> 0 <= d < 64 ->
  Z.lor (Z.lor (Z.lor (Z.shiftl a 18) (Z.shiftl b 12)) (Z.shiftl c 6)) d
  = a * 262144 + b * 4096 + c * 64 + d.
Proof.
  intros. rewrite (Z.shiftl_mul_pow2 b 12), (Z.shiftl_mul_pow2 c 6) by lia.
  rewrite (lor_shiftl_add a (b * 2 ^ 12) 18) by lia.
  rewrite (lor_const_add _ (c * 2 ^ 6) 12); try lia.
  2: arith.
  rewrite (lor_const_add _ d 6); try lia.
  arith.
Qed.

Ltac split_ifs :=
  repeat match goal with
         | |- context [if ?b then _ else _] => destruct b
         end.

Ltac split_ifs_eq :=
  repeat match goal with
         | |- context [if ?b then _ else _] =>
           let E := fresh "E" in destruct b eqn:E
         end.

Ltac rewrite_conds :=
  repeat match goal with
         | E : ?b = _ |- context [if ?b then _ else _] => rewrite E
         end.

Lemma first_sz z sz lo hi :
  utf8.first z = utf8.Lead sz lo hi -> sz = 2%nat \/ sz = 3%nat \/ sz = 4%nat.
Proof.
  unfold utf8.first. split_ifs; intros H; inversion H; auto.
Qed.

Lemma IsSpace_RuneError : unicode.IsSpace utf8.RuneError = false.
Proof. reflexivity. Qed.

(** A rune that was decoded from a slice is decoded from any extension
    of the slice. *)
Lemma DecodeRune_app s x :
  unicode.IsSpace (fst (utf8.DecodeRune s)) = true ->
  utf8.DecodeRune (s ++ x) = utf8.DecodeRune s.
Proof.
  destruct s as [|p0 t]; [discriminate|].
  unfold utf8.DecodeRune. rewrite <- app_comm_cons.
  destruct (utf8.first (b2z p0)) as [| |sz lo hi] eqn:F; try reflexivity.
  destruct (first_sz _ _ _ _ F) as [->|[->| ->]];
  destruct t as [|b1 [|b2 [|b3 t3]]];
    cbn [Datatypes.length Nat.ltb Nat.leb app fst];
    try discriminate; split_ifs; try reflexivity; try discriminate.
Qed.

(** A decoded rune is read from its first [n] bytes. *)
Lemma DecodeRune_firstn s r n :
  utf8.DecodeRune s = (r, n) ->
  unicode.IsSpace r = true ->
  utf8.DecodeRune (firstn n s) = (r, n) /\ List.length (firstn n s) = n.
Proof.
  destruct s as [|p0 t]; [intros [= <- <-]; discriminate|].
  unfold utf8.DecodeRune.
  destruct (utf8.first (b2z p0)) as [| |sz lo hi] eqn:F.
  - intros [= <- <-] _. cbn. rewrite F. auto.
  - intros [= <- <-]; discriminate.
  - destruct (first_sz _ _ _ _ F) as [->|[->| ->]];
    destruct t as [|b1 [|b2 [|b3 t3]]];
    cbn [Datatypes.length Nat.ltb Nat.leb app fst];
    split_ifs_eq; intros [= <- <-]; try discriminate; intros _;
    cbn [firstn Datatypes.length Nat.ltb Nat.leb]; rewrite ?F;
    cbn [Datatypes.length Nat.ltb Nat.leb]; rewrite_conds; auto.
Qed.

Opaque Z.shiftl Z.shiftr Z.land Z.lor.

Ltac bits_to_arith :=
  change 31 with (Z.ones 5) in *; change 63 with (Z.ones 6) in *;
  change 15 with (Z.ones 4) in *; change 7 with (Z.ones 3) in *;
  rewrite ?land_low in * by lia;
  rewrite ?Z.shiftr_div_pow2 in * by lia.

Ltac solve_byte n :=
  apply z2b_eq; rewrite (lor_const_add _ _ n) by arith; arith.

(** Encoding is the inverse of decoding: a slice that decodes as one
    rune of its whole length is the encoding of that rune. *)
Lemma DecodeRune_encode c r :
  utf8.DecodeRune c = (r, List.length c) -> r <> utf8.RuneError ->
  utf8.EncodeRune r = c.
Proof.
  destruct c as [|p0 t]; [intros [= <-]; congruence|].
  unfold utf8.DecodeRune.
  pose proof (b2z_range p0) as R0.
  destruct (utf8.first (b2z p0)) as [| |sz lo hi] eqn:F.
  - intros [= <- L] _. destruct t; [|discriminate].
    unfold utf8.first in F.
    destruct (b2z p0 <? 128) eqn:E; [|revert F; split_ifs_eq; discriminate].
    unfold utf8.EncodeRune.
    replace ((0 <=? b2z p0) && (b2z p0 <=? 127)) with true by lia.
    now rewrite z2b_b2z.
  - intros [= <- _]; congruence.
  - destruct (first_sz _ _ _ _ F) as [->|[->| ->]];
    destruct t as [|b1 [|b2 [|b3 [|b4 t4]]]];
    cbn [Datatypes.length Nat.ltb Nat.leb app fst];
    split_ifs_eq; intros [= <-]; try congruence; intros _.
    all: unfold utf8.first in F; revert F; split_ifs_eq; intros [= <- <-].
    all: pose proof (b2z_range b1) as R1.
    all: try pose proof (b2z_range b2) as R2.
    all: try pose proof (b2z_range b3) as R3.
    all: unfold utf8.cont in *.
    all: bits_to_arith.
    all: rewrite ?rune4, ?rune3, ?rune2 by arith.
    all: unfold utf8.EncodeRune, utf8.encode3, utf8.RuneError.
    all: repeat match goal with
         | |- context [if ?b then _ else _] =>
           first [replace b with true by arith | replace b with false by arith]
         end.
    all: bits_to_arith.
    all: repeat (f_equal; [first [solve_byte 5 | solve_byte 6
                                 | solve_byte 4 | solve_byte 3]|]).
    all: f_equal; solve_byte 6.
Qed.

Transparent Z.shiftl Z.shiftr Z.land Z.lor.

(** The white-space runes, one by one. *)
Lemma IsSpace_cases r :
  unicode.IsSpace r = true ->
  In r [0x09; 0x0A; 0x0B; 0x0C; 0x0D; 0x20; 0x85; 0xA0; 0x1680;
        0x2000; 0x2001; 0x2002; 0x2003; 0x2004; 0x2005; 0x2006; 0x2007;
        0x2008; 0x2009; 0x200A; 0x2028; 0x2029; 0x202F; 0x205F; 0x3000].
Proof.
  unfold unicode.IsSpace. intros H. cbn [In].
  destruct ((0 <=? r) && (r <=? 255)) eqn:E; lia.
Qed.

(** Decoding the encoding of a white-space rune gives the rune back. *)
Lemma DecodeRune_EncodeRune_space r s :
  unicode.IsSpace r = true ->
  utf8.DecodeRune (utf8.EncodeRune r ++ s)
  = (r, List.length (utf8.EncodeRune r)) /\
  (0 < List.length (utf8.EncodeRune r))%nat.
Proof.
  intros H. apply IsSpace_cases in H. cbn [In] in H.
  repeat (destruct H as [<-|H]; [split; [reflexivity|cbn; lia]|]).
  contradiction.
Qed.

(** ** bytes.TrimSpace removes the white space at both ends *)

Lemma all_space_app a b : all_space a -> all_space b -> all_space (a ++ b).
Proof.
  induction 1 as [|r s Hr Hs IH]; intros Hb; [exact Hb|].
  rewrite <- app_assoc. constructor; auto.
Qed.

Lemma all_space_rune r : unicode.IsSpace r = true -> all_space (utf8.EncodeRune r).
Proof.
  intros H. rewrite <- (app_nil_r (utf8.EncodeRune r)).
  constructor; [exact H | constructor].
Qed.

Lemma IsSpace_not_error r : unicode.IsSpace r = true -> r <> utf8.RuneError.
Proof. intros H ->. discriminate. Qed.

Lemma TrimLeft_aux_skip f k s :
  Bytes.TrimLeft_aux f k s = Bytes.TrimLeft_aux f 0 (skipn k s).
Proof.
  revert k. induction s as [|c t IH]; intros [|k]; try reflexivity.
  cbn [Bytes.TrimLeft_aux skipn]. apply IH.
Qed.

Lemma TrimRight_aux_skip f k s :
  Bytes.TrimRight_aux f k s = Bytes.TrimRight_aux f 0 (skipn k s).
Proof.
  revert k. induction s as [|c t IH]; intros [|k]; try reflexivity.
  cbn [Bytes.TrimRight_aux skipn]. apply IH.
Qed.

(** One step of the left trim. *)
Lemma TrimLeft_step s :
  s <> [] ->
  let '(r, n) := utf8.DecodeRune s in
  Bytes.TrimLeftFunc s unicode.IsSpace =
  if unicode.IsSpace r then Bytes.TrimLeftFunc (skipn n s) unicode.IsSpace else s.
Proof.
  destruct s as [|c t]; [congruence|]. intros _.
  unfold Bytes.TrimLeftFunc. cbn [Bytes.TrimLeft_aux].
  destruct (utf8.DecodeRune (c :: t)) as [r n] eqn:D.
  destruct (unicode.IsSpace r) eqn:S; [|reflexivity].
  rewrite TrimLeft_aux_skip.
  destruct (DecodeRune_firstn _ _ _ D S) as [D' L].
  destruct n as [|n].
  - cbn in D'. injection D' as <-. discriminate.
  - cbn [skipn]. do 2 f_equal. lia.
Qed.

(** The left trim drops a run of white space, and what is left does not
    begin with a white-space rune. *)
Lemma TrimLeftFunc_spec s :
  exists pre,
    s = pre ++ Bytes.TrimLeftFunc s unicode.IsSpace /\
    all_space pre /\
    unicode.IsSpace (fst (utf8.DecodeRune (Bytes.TrimLeftFunc s unicode.IsSpace)))
    = false.
Proof.
  remember (List.length s) as m eqn:Hm. revert s Hm.
  induction m as [m IH] using lt_wf_ind. intros s Hm.
  destruct s as [|c t].
  - exists []. repeat split; constructor.
  - pose proof (TrimLeft_step (c :: t) ltac:(discriminate)) as St.
    destruct (utf8.DecodeRune (c :: t)) as [r n] eqn:D.
    destruct (unicode.IsSpace r) eqn:S.
    + destruct (DecodeRune_firstn _ _ _ D S) as [D' L].
      assert (n <> 0%nat) as Hn.
      { intros ->. cbn in D'. injection D' as <-. discriminate. }
      destruct (IH (List.length (skipn n (c :: t)))
                   ltac:(rewrite length_skipn; cbn [Datatypes.length] in *; lia)
                   _ eq_refl) as (pre & E & A & N).
      rewrite <- St in E, N.
      exists (firstn n (c :: t) ++ pre). repeat split.
      * rewrite <- app_assoc, <- E. symmetry. apply firstn_skipn.
      * apply all_space_app; [|exact A].
        rewrite <- L in D' at 2.
        rewrite <- (DecodeRune_encode _ _ D' (IsSpace_not_error _ S)).
        now apply all_space_rune.
      * exact N.
    + exists []. rewrite St. repeat split; [constructor|].
      rewrite D. exact S.
Qed.

Lemma nth_pred_length {A} (l : list A) d :
  nth (List.length l - 1) l d = last l d.
Proof.
  induction l as [|x [|y t] IH]; try reflexivity.
  cbn [Datatypes.length last] in *. rewrite <- IH.
  cbn [Nat.sub nth]. now rewrite Nat.sub_0_r.
Qed.

(** The last rune, when it is white space, is the decoding of the last
    bytes of the slice. *)
Lemma DecodeLastRune_space p r n :
  utf8.DecodeLastRune p = (r, n) ->
  unicode.IsSpace r = true ->
  exists a c, p = a ++ c /\ List.length c = n /\ utf8.DecodeRune c = (r, n).
Proof.
  unfold utf8.DecodeLastRune, len.
  destruct (Z.of_nat (List.length p) =? 0) eqn:E0.
  { intros [= <- <-]; discriminate. }
  assert (p <> []) as Hne by (intros ->; discriminate).
  destruct (b2z (nth (Z.to_nat (Z.of_nat (List.length p) - 1)) p x00)
            <? utf8.RuneSelf) eqn:E1.
  - intros [= <- <-] _.
    exists (removelast p), [last p x00].
    replace (Z.to_nat (Z.of_nat (List.length p) - 1))
      with (List.length p - 1)%nat in * by lia.
    rewrite <- (app_removelast_last x00 Hne).
    rewrite nth_pred_length in *.
    repeat split.
    unfold utf8.DecodeRune, utf8.first.
    unfold utf8.RuneSelf in E1. now rewrite E1.
  - set (start := Z.max 0 _).
    destruct (utf8.DecodeRune (skipn (Z.to_nat start) p)) as [r' n'] eqn:D.
    destruct (start + Z.of_nat n' =? Z.of_nat (List.length p)) eqn:E2;
      cbn [negb]; intros [= <- <-]; [|discriminate].
    intros S.
    exists (firstn (Z.to_nat start) p), (skipn (Z.to_nat start) p).
    rewrite firstn_skipn, length_skipn. repeat split; [lia|].
    exact D.
Qed.

(** One step of the right trim, on the reversed slice. *)
Lemma TrimRight_step r :
  r <> [] ->
  let '(c, n) := utf8.DecodeLastRune (rev r) in
  Bytes.TrimRight_aux unicode.IsSpace 0 r =
  if unicode.IsSpace c
  then Bytes.TrimRight_aux unicode.IsSpace 0 (skipn n r) else r.
Proof.
  destruct r as [|x t]; [congruence|]. intros _.
  cbn [Bytes.TrimRight_aux].
  destruct (utf8.DecodeLastRune (rev (x :: t))) as [c n] eqn:D.
  destruct (unicode.IsSpace c) eqn:S; [|reflexivity].
  rewrite TrimRight_aux_skip.
  destruct (DecodeLastRune_space _ _ _ D S) as (a & ch & E & L & D').
  destruct n as [|n].
  - destruct ch; [|discriminate]. cbn in D'. injection D' as <-. discriminate.
  - cbn [skipn]. do 2 f_equal. lia.
Qed.

Lemma TrimRight_aux_spec r :
  exists post,
    rev r = rev (Bytes.TrimRight_aux unicode.IsSpace 0 r) ++ post /\
    all_space post /\
    unicode.IsSpace
      (fst (utf8.DecodeLastRune (rev (Bytes.TrimRight_aux unicode.IsSpace 0 r))))
    = false.
Proof.
  remember (List.length r) as m eqn:Hm. revert r Hm.
  induction m as [m IH] using lt_wf_ind. intros r Hm.
  destruct r as [|x t].
  - exists []. repeat split; constructor.
  - pose proof (TrimRight_step (x :: t) ltac:(discriminate)) as St.
    destruct (utf8.DecodeLastRune (rev (x :: t))) as [c n] eqn:D.
    destruct (unicode.IsSpace c) eqn:S.
    + destruct (DecodeLastRune_space _ _ _ D S) as (a & ch & E & L & D').
      assert (n <> 0%nat) as Hn.
      { intros ->. destruct ch; [|discriminate].
        cbn in D'. injection D' as <-. discriminate. }
      assert (x :: t = rev ch ++ rev a) as Er.
      { rewrite <- rev_app_distr, <- E. now rewrite rev_involutive. }
      assert (skipn n (x :: t) = rev a) as Es.
      { rewrite Er, <- L, <- length_rev. rewrite skipn_app, Nat.sub_diag.
        now rewrite skipn_all. }
      assert (List.length (rev a) < m)%nat as Hlt.
      { pose proof (f_equal (@List.length _) Er) as El.
        rewrite length_app, !length_rev in El. rewrite length_rev. lia. }
      destruct (IH _ Hlt _ eq_refl) as (post & E' & A & N).
      rewrite St, Es.
      exists (post ++ ch). repeat split.
      * rewrite app_assoc, <- E', rev_involutive. exact E.
      * apply all_space_app; [exact A|].
        rewrite <- L in D'.
        rewrite <- (DecodeRune_encode _ _ D' (IsSpace_not_error _ S)).
        now apply all_space_rune.
      * exact N.
    + exists []. rewrite St, app_nil_r. repeat split; [constructor|].
      rewrite D. exact S.
Qed.

(** The right trim drops a run of white space, and what is left does not
    end with a white-space rune. *)
Lemma TrimRightFunc_spec s :
  exists post,
    s = Bytes.TrimRightFunc s unicode.IsSpace ++ post /\
    all_space post /\
    unicode.IsSpace
      (fst (utf8.DecodeLastRune (Bytes.TrimRightFunc s unicode.IsSpace)))
    = false.
Proof.
  unfold Bytes.TrimRightFunc.
  destruct (TrimRight_aux_spec (rev s)) as (post & E & A & N).
  rewrite rev_involutive in E. eauto.
Qed.

(** [TrimSpace] cuts a run of white space off each end of the slice; the
    rest neither begins nor ends with a white-space rune. *)
Lemma TrimSpace_spec s :
  exists pre post,
    s = pre ++ Bytes.TrimSpace s ++ post /\
    all_space pre /\ all_space post /\
    unicode.IsSpace (fst (utf8.DecodeRune (Bytes.TrimSpace s))) = false /\
    unicode.IsSpace (fst (utf8.DecodeLastRune (Bytes.TrimSpace s))) = false.
Proof.
  unfold Bytes.TrimSpace, Bytes.TrimFunc.
  destruct (TrimLeftFunc_spec s) as (pre & E & A & N).
  destruct (TrimRightFunc_spec (Bytes.TrimLeftFunc s unicode.IsSpace))
    as (post & E' & A' & N').
  exists pre, post. repeat split; auto.
  - now rewrite <- E'.
  - destruct (unicode.IsSpace
                (fst (utf8.DecodeRune
                        (Bytes.TrimRightFunc
                           (Bytes.TrimLeftFunc s unicode.IsSpace)
                           unicode.IsSpace)))) eqn:S; [|reflexivity].
    rewrite E', (DecodeRune_app _ post S), S in N. discriminate.
Qed.

(** White space only is trimmed to nothing. *)
Lemma TrimLeftFunc_all_space s :
  all_space s -> Bytes.TrimLeftFunc s unicode.IsSpace = [].
Proof.
  induction 1 as [|r s Hr Hs IH]; [reflexivity|].
  destruct (DecodeRune_EncodeRune_space r s Hr) as [D Hl].
  assert (utf8.EncodeRune r ++ s <> []) as Hne.
  { destruct (utf8.EncodeRune r); [cbn in Hl; lia | discriminate]. }
  pose proof (TrimLeft_step _ Hne) as St. rewrite D, Hr in St.
  rewrite St, skipn_app, Nat.sub_diag, skipn_all. exact IH.
Qed.

Lemma TrimSpace_all_space s : all_space s -> Bytes.TrimSpace s = [].
Proof.
  intros H. unfold Bytes.TrimSpace, Bytes.TrimFunc.
  now rewrite TrimLeftFunc_all_space.
Qed.

(** ** The scanner never hands a malformed literal to [unquoteBytes] *)

Lemma scanned_string_app a b :
  scanned_string a = true -> scanned_string (a ++ b) = scanned_string b.
Proof.
  remember (List.length a) as m eqn:Hm. revert a Hm.
  induction m as [m IH] using lt_wf_ind. intros a Hm.
  destruct a as [|c r]; [reflexivity|].
  cbn [scanned_string app].
  destruct (b2z c =? 92).
  - destruct r as [|e r1]; [discriminate|]. cbn [app].
    destruct (is_escape e).
    + apply (IH (List.length r1)); [cbn in Hm; lia | reflexivity].
    + destruct (b2z e =? 117); [|discriminate].
      destruct r1 as [|h1 [|h2 [|h3 [|h4 r2]]]]; try discriminate. cbn [app].
      destruct (json.isHex h1 && json.isHex h2 && json.isHex h3 && json.isHex h4);
        [|discriminate].
      cbn [andb]. apply (IH (List.length r2)); [cbn in Hm; lia | reflexivity].
  - destruct ((b2z c =? 34) || (b2z c <? 32)); [discriminate|].
    apply (IH (List.length r)); [cbn in Hm; lia | reflexivity].
Qed.

Lemma scanned_string_snoc w c :
  scanned_string w = true ->
  (b2z c =? 92) = false -> (b2z c =? 34) || (b2z c <? 32) = false ->
  scanned_string (w ++ [c]) = true.
Proof.
  intros H E1 E2. rewrite scanned_string_app by exact H.
  cbn [scanned_string]. now rewrite E1, E2.
Qed.

Lemma scanned_string_escape w e :
  scanned_string w = true -> is_escape e = true ->
  scanned_string (w ++ [x5c; e]) = true.
Proof.
  intros H E. rewrite scanned_string_app by exact H.
  cbn [scanned_string]. change (b2z x5c =? 92) with true. cbn iota. now rewrite E.
Qed.

Lemma is_escape_not_u e : is_escape e = true -> (b2z e =? 117) = false.
Proof. destruct e; try discriminate; reflexivity. Qed.

Lemma scanned_string_u w h1 h2 h3 h4 :
  scanned_string w = true ->
  json.isHex h1 = true -> json.isHex h2 = true ->
  json.isHex h3 = true -> json.isHex h4 = true ->
  scanned_string (w ++ [x5c; "u"%byte; h1; h2; h3; h4]) = true.
Proof.
  intros H E1 E2 E3 E4. rewrite scanned_string_app by exact H.
  cbn [scanned_string]. change (b2z x5c =? 92) with true. cbn iota.
  change (is_escape "u") with false. change (b2z "u" =? 117) with true.
  cbn iota. now rewrite E1, E2, E3, E4.
Qed.

Lemma prepend_some a r : r <> None -> json.prepend a r <> None.
Proof. destruct r; [discriminate|congruence]. Qed.

Lemma is_escape_simple e :
  is_escape e = true -> exists b, json.simple_escape e = Some b.
Proof. destruct e; try discriminate; intros _; eexists; reflexivity. Qed.

Lemma simple_escape_u e :
  (b2z e =? 117) = true -> json.simple_escape e = None.
Proof. destruct e; try discriminate; reflexivity. Qed.

Lemma not_escape_u e :
  is_escape e = false -> (b2z e =? 117) = true -> json.simple_escape e = None.
Proof. intros _. apply simple_escape_u. Qed.

Lemma getu4_hex h1 h2 h3 h4 :
  json.isHex h1 && json.isHex h2 && json.isHex h3 && json.isHex h4 = true ->
  exists rr, json.getu4 h1 h2 h3 h4 = Some rr.
Proof.
  unfold json.isHex, json.getu4.
  destruct (json.hexval h1), (json.hexval h2), (json.hexval h3), (json.hexval h4);
    try discriminate. eauto.
Qed.

Lemma getu4_isHex h1 h2 h3 h4 rr :
  json.getu4 h1 h2 h3 h4 = Some rr ->
  json.isHex h1 && json.isHex h2 && json.isHex h3 && json.isHex h4 = true.
Proof.
  unfold json.isHex, json.getu4.
  destruct (json.hexval h1), (json.hexval h2), (json.hexval h3), (json.hexval h4);
    try discriminate. reflexivity.
Qed.

Lemma first_lo z sz lo hi : utf8.first z = utf8.Lead sz lo hi -> 128 <= lo.
Proof.
  unfold utf8.first.
  repeat match goal with |- context [if ?b then _ else _] => destruct b end;
    intros H; inversion H; lia.
Qed.

(** The bytes a decoded rune is made of, the first apart, are not ASCII. *)
Lemma DecodeRune_tail c r rr size :
  utf8.DecodeRune (c :: r) = (rr, size) ->
  match size with
  | 1%nat => True
  | 2%nat => exists b1 r1, r = b1 :: r1 /\ 128 <= b2z b1
  | 3%nat => exists b1 b2 r2, r = b1 :: b2 :: r2 /\ 128 <= b2z b1 /\ 128 <= b2z b2
  | 4%nat => exists b1 b2 b3 r3,
      r = b1 :: b2 :: b3 :: r3 /\ 128 <= b2z b1 /\ 128 <= b2z b2 /\ 128 <= b2z b3
  | _ => False
  end.
Proof.
  unfold utf8.DecodeRune.
  destruct (utf8.first (b2z c)) as [| |sz lo hi] eqn:F;
    try (intros [= <- <-]; exact I).
  pose proof (first_lo _ _ _ _ F) as Hlo.
  destruct (first_sz _ _ _ _ F) as [->|[->| ->]];
    destruct r as [|b1 [|b2 [|b3 r3]]];
    cbn [Datatypes.length Nat.ltb Nat.leb];
    unfold utf8.cont;
    repeat match goal with
           | |- context [if ?b then _ else _] =>
             let E := fresh "E" in destruct b eqn:E
           end;
    intros [= <- <-]; try exact I;
    repeat eexists; lia.
Qed.

Lemma scanned_string_high b r :
  128 <= b2z b -> scanned_string (b :: r) = scanned_string r.
Proof.
  intros H. cbn [scanned_string].
  replace (b2z b =? 92) with false by lia.
  now replace ((b2z b =? 34) || (b2z b <? 32)) with false by lia.
Qed.

(** The text of a string literal the scanner accepts is unquoted. *)
Lemma unquote_loop_scanned w :
  scanned_string w = true -> json.unquote_loop w <> None.
Proof.
  remember (List.length w) as m eqn:Hm. revert w Hm.
  induction m as [m IH] using lt_wf_ind. intros w Hm.
  assert (forall w', (List.length w' < List.length w)%nat ->
                     scanned_string w' = true -> json.unquote_loop w' <> None)
    as IH'.
  { intros w' L. apply (IH (List.length w')); [lia|reflexivity]. }
  clear IH Hm.
  destruct w as [|c r]; [discriminate|].
  cbn [scanned_string json.unquote_loop].
  destruct (b2z c =? 92) eqn:Ebs.
  - destruct r as [|e r1]; [discriminate|].
    destruct (is_escape e) eqn:Ee.
    + intros S. destruct (is_escape_simple e Ee) as [b ->].
      apply prepend_some, IH'; [cbn; lia|exact S].
    + destruct (b2z e =? 117) eqn:Eu; [|discriminate].
      rewrite (simple_escape_u e Eu).
      destruct r1 as [|h1 [|h2 [|h3 [|h4 r2]]]]; try discriminate.
      intros S. apply andb_prop in S. destruct S as [Hhex S].
      destruct (getu4_hex _ _ _ _ Hhex) as [rr ->].
      assert (json.prepend (utf8.EncodeRune json.ReplacementChar)
                           (json.unquote_loop r2) <> None) as Fb.
      { apply prepend_some, IH'; [cbn; lia|exact S]. }
      destruct (json.IsSurrogate rr).
      * destruct r2 as [|a [|b [|g1 [|g2 [|g3 [|g4 r3]]]]]];
          try exact Fb; destruct a; try exact Fb; destruct b; try exact Fb.
        destruct (json.getu4 g1 g2 g3 g4) as [rr1|] eqn:G; [|exact Fb].
        destruct (negb (json.utf16_DecodeRune rr rr1 =? json.ReplacementChar));
          [|exact Fb].
        apply prepend_some, IH'; [cbn; lia|].
        cbn [scanned_string] in S.
        change (b2z x5c =? 92) with true in S. cbn iota in S.
        change (is_escape "u") with false in S.
        change (b2z "u" =? 117) with true in S. cbn iota in S.
        rewrite (getu4_isHex _ _ _ _ _ G) in S. exact S.
      * apply prepend_some, IH'; [cbn; lia|exact S].
  - destruct ((b2z c =? 34) || (b2z c <? 32)) eqn:Eq; [discriminate|].
    intros S.
    destruct (b2z c <? utf8.RuneSelf).
    + apply prepend_some, IH'; [cbn; lia|exact S].
    + destruct (utf8.DecodeRune (c :: r)) as [rr size] eqn:D.
      pose proof (DecodeRune_tail _ _ _ _ D) as T.
      destruct size as [|[|[|[|[|size]]]]]; try contradiction.
      * apply prepend_some, IH'; [cbn; lia|exact S].
      * destruct T as (b1 & r1 & -> & H1).
        rewrite scanned_string_high in S by exact H1.
        apply prepend_some, IH'; [cbn; lia|exact S].
      * destruct T as (b1 & b2 & r2 & -> & H1 & H2).
        rewrite !scanned_string_high in S by assumption.
        apply prepend_some, IH'; [cbn; lia|exact S].
      * destruct T as (b1 & b2 & b3 & r3 & -> & H1 & H2 & H3).
        rewrite !scanned_string_high in S by assumption.
        apply prepend_some, IH'; [cbn; lia|exact S].
Qed.

(** A string literal the scanner accepts is unquoted without failure. *)
Lemma unquote_scanned it :
  string_literal it -> json.unquoteBytes (rev it) <> None.
Proof.
  intros (w & -> & S). unfold json.unquoteBytes.
  rewrite rev_app_distr. cbn [rev app]. rewrite rev_involutive.
  now apply unquote_loop_scanned.
Qed.

Section Scanner.
Import json.


Lemma b2z_inj a b : b2z a = b2z b -> a = b.
Proof. intros H. rewrite <- (z2b_b2z a), <- (z2b_b2z b). now rewrite H. Qed.

Lemma eqb_byte c b : (b2z c =? b2z b) = true -> c = b.
Proof. intros H. apply b2z_inj. lia. Qed.

Lemma stateInStringEsc_step s c :
  json.step s = stateInStringEsc ->
  step_ s c =
  if is_escape c then continue s stateInString c
  else if b2z c =? 117 then continue s stateInStringEscU c
  else error_ s c "in string escape code".
Proof. intros E. unfold step_. rewrite E. destruct c; reflexivity. Qed.

(** What [stateBeginValue] can do. *)
Lemma stateBeginValue_cases s c :
  stateBeginValue_ s c = s \/
  stateBeginValue_ s c = pushParseState (set_step s stateBeginStringOrEmpty) c parseObjectKey \/
  stateBeginValue_ s c = pushParseState (set_step s stateBeginValueOrEmpty) c parseArrayValue \/
  (c = x22 /\ stateBeginValue_ s c = beginLiteral s stateInString c) \/
  (exists st, In st [stateNeg; state0; state1; stateT; stateF; stateN] /\
              stateBeginValue_ s c = beginLiteral s st c) \/
  (exists ctx, stateBeginValue_ s c = error_ s c ctx).
Proof.
  unfold stateBeginValue_. destruct (isSpace c); [now left|].
  destruct c;
    try match goal with |- context [if ?b then _ else _] => destruct b end;
    first [ left; reflexivity
          | right; left; reflexivity
          | right; right; left; reflexivity
          | right; right; right; left; split; reflexivity
          | right; right; right; right; left; eexists;
            split; [|reflexivity]; cbn; tauto
          | right; right; right; right; right; eexists; reflexivity ].
Qed.


Ltac scanner_inv_simpl :=
  unfold scanner_inv, key_states, error_, pushParseState, popParseState, set_step,
    set_val, set_parseState, beginLiteral, continue, stateEndTop_ in *;
  cbn [step item parseState endTop err val tl fst snd] in *.

Lemma inv_error s c ctx : scanner_inv s -> scanner_inv (error_ s c ctx).
Proof.
  scanner_inv_simpl. intros (_ & F & _). repeat split; auto.
  destruct (parseState s) as [|[[| |] f] rest]; exact I.
Qed.

Lemma inv_val s v : scanner_inv s -> scanner_inv (set_val s v).
Proof. scanner_inv_simpl. auto. Qed.

Lemma top_not_key_Forall s :
  scanner_inv s -> top_not_key s ->
  Forall (fun pf => fst pf <> parseObjectKey) (parseState s).
Proof.
  unfold scanner_inv, key_states, top_not_key. intros (_ & F & _) T.
  destruct (parseState s) as [|[[| |] f] rest]; cbn [tl] in F;
    try contradiction; constructor; auto; cbn; congruence.
Qed.

Lemma inv_push_key s c :
  scanner_inv s -> top_not_key s ->
  scanner_inv (pushParseState (set_step s stateBeginStringOrEmpty) c parseObjectKey).
Proof.
  intros I T. pose proof (top_not_key_Forall s I T) as F.
  scanner_inv_simpl.
  destruct (len _ <=? maxNestingDepth); cbn [step item parseState tl];
    repeat split; auto.
Qed.

Lemma inv_push_array s c :
  scanner_inv s -> top_not_key s ->
  scanner_inv (pushParseState (set_step s stateBeginValueOrEmpty) c parseArrayValue).
Proof.
  intros I T. pose proof (top_not_key_Forall s I T) as F.
  scanner_inv_simpl.
  destruct (len _ <=? maxNestingDepth); cbn [step item parseState tl];
    repeat split; auto.
Qed.

Lemma inv_pop s v : scanner_inv s -> scanner_inv (popParseState s v).
Proof.
  scanner_inv_simpl. intros (_ & F & _).
  destruct (parseState s) as [|p [|[q g] rest]]; cbn [tl step item parseState] in *;
    repeat split; auto.
  - inversion F; auto.
  - inversion F as [|? ? Hq ?]; subst. cbn in Hq.
    destruct q; try exact I; congruence.
Qed.

Lemma inv_endvalue s c :
  scanner_inv s ->
  (forall f rest, parseState s = (parseObjectKey, f) :: rest ->
                  string_literal (item s)) ->
  scanner_inv (stateEndValue_ s c).
Proof.
  intros I K. unfold stateEndValue_.
  destruct (parseState s) as [|[ps f] rest] eqn:P.
  - unfold stateEndTop_. destruct (negb (isSpace c)).
    + apply inv_error. scanner_inv_simpl. repeat split; auto.
    + scanner_inv_simpl. repeat split; auto.
  - destruct (isSpace c).
    { destruct I as (_ & F & _). scanner_inv_simpl. rewrite P in *. repeat split; auto.
      destruct ps; try exact I. eapply K; reflexivity. }
    assert (Forall (fun pf => fst pf <> parseObjectKey) rest) as F.
    { destruct I as (_ & F & _). rewrite P in F. exact F. }
    destruct ps.
    + destruct (b2z c =? 58); [|now apply inv_error].
      scanner_inv_simpl. repeat split; auto.
    + destruct (b2z c =? 44).
      * scanner_inv_simpl. repeat split; auto.
      * destruct (b2z c =? 125); [now apply inv_pop | now apply inv_error].
    + destruct (b2z c =? 44).
      * scanner_inv_simpl. repeat split; auto.
      * destruct (b2z c =? 93); [now apply inv_pop | now apply inv_error].
Qed.

Lemma inv_top_key s :
  scanner_inv s ->
  match step s with
  | stateBeginStringOrEmpty | stateBeginString
  | stateInString | stateInStringEsc
  | stateInStringEscU | stateInStringEscU1
  | stateInStringEscU12 | stateInStringEscU123
  | stateError | stateEndValue => True
  | _ => top_not_key s
  end.
Proof.
  unfold scanner_inv, key_states, top_not_key. intros (_ & _ & K).
  destruct (parseState s) as [|[[| |] f] rest]; destruct (step s); auto.
Qed.

Lemma inv_begin_literal s st c :
  scanner_inv s -> top_not_key s -> string_prefix st [c] ->
  scanner_inv (beginLiteral s st c).
Proof.
  intros (_ & F & _) T P. unfold top_not_key in T. scanner_inv_simpl.
  repeat split; auto.
  destruct (parseState s) as [|[[| |] f] rest]; auto; contradiction.
Qed.

Lemma string_prefix_quote : string_prefix stateInString [x22].
Proof. exists []. split; reflexivity. Qed.

Lemma inv_begin_value s c :
  scanner_inv s -> top_not_key s -> scanner_inv (stateBeginValue_ s c).
Proof.
  intros I T.
  destruct (stateBeginValue_cases s c)
    as [E|[E|[E|[[-> E]|[(st & Hin & E)|[ctx E]]]]]]; rewrite E.
  - exact I.
  - now apply inv_push_key.
  - now apply inv_push_array.
  - apply inv_begin_literal; auto. apply string_prefix_quote.
  - apply inv_begin_literal; auto.
    cbn [In] in Hin. repeat (destruct Hin as [<-|Hin]; [exact Logic.I|]).
    contradiction.
  - now apply inv_error.
Qed.

Lemma inv_begin_string s c : scanner_inv s -> scanner_inv (stateBeginString_ s c).
Proof.
  intros I. unfold stateBeginString_.
  destruct (isSpace c); [exact I|].
  destruct (b2z c =? 34) eqn:E; [|now apply inv_error].
  apply (eqb_byte c x22) in E. subst c.
  destruct I as (_ & F & K). scanner_inv_simpl. repeat split; auto.
  - apply string_prefix_quote.
  - destruct (parseState s) as [|[[| |] f] rest]; auto.
Qed.

(** A byte is added to the item and the scanner stays in the string
    states, or leaves them with a complete literal. *)
Lemma inv_continue s st c :
  scanner_inv s ->
  string_prefix st (c :: item s) ->
  match st with
  | stateInString | stateInStringEsc
  | stateInStringEscU | stateInStringEscU1
  | stateInStringEscU12 | stateInStringEscU123 => True
  | stateEndValue => string_literal (c :: item s) \/ top_not_key s
  | _ => top_not_key s
  end ->
  scanner_inv (continue s st c).
Proof.
  intros (_ & F & _) P K. unfold top_not_key in K. scanner_inv_simpl.
  repeat split; auto.
  destruct (parseState s) as [|[[| |] f] rest]; auto;
    destruct st; auto; tauto.
Qed.

Lemma inv_expect s c want next v ctx :
  scanner_inv s -> top_not_key s ->
  match next with
  | stateInString | stateInStringEsc
  | stateInStringEscU | stateInStringEscU1
  | stateInStringEscU12 | stateInStringEscU123 => False
  | _ => True
  end ->
  scanner_inv (expect s c want next v ctx).
Proof.
  intros I T N. unfold expect.
  destruct (b2z c =? b2z want); [|now apply inv_error].
  assert (scanner_inv (continue s next c)) as IC.
  { apply inv_continue; auto; destruct next; auto; contradiction. }
  destruct v; [now apply inv_val | exact IC].
Qed.

Lemma rev_cons_app {A} (c : A) it pre w :
  rev it = pre :: w -> rev (c :: it) = pre :: w ++ [c].
Proof. intros H. cbn [rev]. now rewrite H. Qed.

(** Every step of the scanner keeps the invariant. *)
Lemma inv_step s c : scanner_inv s -> scanner_inv (step_ s c).
Proof.
  intros I. pose proof (inv_top_key s I) as T.
  pose proof I as (P & _ & _).
  destruct (step s) eqn:St;
    try (rewrite stateInStringEsc_step by exact St);
    try (unfold step_; rewrite St).
  - (* stateBeginValueOrEmpty *)
    unfold stateBeginValueOrEmpty_. destruct (isSpace c); [exact I|].
    destruct (b2z c =? 93); [now apply inv_pop | now apply inv_begin_value].
  - now apply inv_begin_value.
  - (* stateBeginStringOrEmpty *)
    unfold stateBeginStringOrEmpty_. destruct (isSpace c); [exact I|].
    destruct (b2z c =? 125); [|now apply inv_begin_string].
    destruct (parseState s) as [|[ps f] rest] eqn:Ps.
    + apply inv_endvalue; [exact I|]. intros f rest E. congruence.
    + apply inv_endvalue.
      * destruct I as (_ & F & _). scanner_inv_simpl. rewrite Ps in F.
        repeat split; auto. rewrite St. exact Logic.I.
      * cbn. intros ? ? E. discriminate.
  - now apply inv_begin_string.
  - (* stateEndValue *)
    apply inv_endvalue; [exact I|]. intros f rest E.
    destruct I as (_ & _ & K). rewrite E, St in K. exact K.
  - (* stateEndTop *)
    unfold stateEndTop_. destruct (negb (isSpace c)); [now apply inv_error|exact I].
  - (* stateInString *)
    destruct P as (w & Hw & Sw).
    destruct (b2z c =? 34) eqn:Eq.
    + apply (eqb_byte c x22) in Eq. subst c. apply inv_val.
      apply inv_continue; [exact I|exact Logic.I|]. left.
      exists w. split; [now apply rev_cons_app|exact Sw].
    + destruct (b2z c =? 92) eqn:Eb.
      * apply (eqb_byte c x5c) in Eb. subst c.
        apply inv_continue; auto. exists w. split; [now apply rev_cons_app|exact Sw].
      * destruct (b2z c <? 32) eqn:Ec; [now apply inv_error|].
        apply inv_continue; auto. exists (w ++ [c]).
        split; [now apply rev_cons_app|].
        apply scanned_string_snoc; auto. now rewrite Eq, Ec.
  - (* stateInStringEsc *)
    destruct P as (w & Hw & Sw).
    destruct (is_escape c) eqn:Ee.
    + apply inv_continue; auto. exists (w ++ [x5c; c]). split.
      * cbn [rev]. rewrite Hw. cbn [app]. now rewrite <- app_assoc.
      * now apply scanned_string_escape.
    + destruct (b2z c =? 117) eqn:Eu; [|now apply inv_error].
      apply (eqb_byte c "u"%byte) in Eu. subst c.
      apply inv_continue; auto. exists w. split; [|exact Sw].
      cbn [rev]. rewrite Hw. cbn [app]. now rewrite <- app_assoc.
  - (* stateInStringEscU *)
    destruct P as (w & Hw & Sw).
    destruct (isHex c) eqn:Eh; [|now apply inv_error].
    apply inv_continue; auto. exists w, c. repeat split; auto.
    cbn [rev]. rewrite Hw. cbn [app]. now rewrite <- app_assoc.
  - destruct P as (w & h1 & Hw & H1 & Sw).
    destruct (isHex c) eqn:Eh; [|now apply inv_error].
    apply inv_continue; auto. exists w, h1, c. repeat split; auto.
    cbn [rev]. rewrite Hw. cbn [app]. now rewrite <- app_assoc.
  - destruct P as (w & h1 & h2 & Hw & H1 & H2 & Sw).
    destruct (isHex c) eqn:Eh; [|now apply inv_error].
    apply inv_continue; auto. exists w, h1, h2, c. repeat split; auto.
    cbn [rev]. rewrite Hw. cbn [app]. now rewrite <- app_assoc.
  - destruct P as (w & h1 & h2 & h3 & Hw & H1 & H2 & H3 & Sw).
    destruct (isHex c) eqn:Eh; [|now apply inv_error].
    apply inv_continue; auto. exists (w ++ [x5c; "u"%byte; h1; h2; h3; c]). split.
    + cbn [rev]. rewrite Hw. cbn [app]. now rewrite <- app_assoc.
    + now apply scanned_string_u.
  - (* stateNeg *)
    repeat match goal with |- context [if ?b then _ else _] => destruct b end;
      try (now apply inv_error); apply inv_continue; auto; exact Logic.I.
  - (* state1 *)
    destruct (strconv.isDigit c); [apply inv_continue; auto; exact Logic.I|].
    unfold state0_, endNumber.
    repeat match goal with |- context [if ?b then _ else _] => destruct b end;
      try (apply inv_continue; auto; exact Logic.I).
    apply inv_endvalue; [now apply inv_val|].
    intros f rest E. unfold top_not_key in T. cbn in E. now rewrite E in T.
  - (* state0 *)
    unfold state0_, endNumber.
    repeat match goal with |- context [if ?b then _ else _] => destruct b end;
      try (apply inv_continue; auto; exact Logic.I).
    apply inv_endvalue; [now apply inv_val|].
    intros f rest E. unfold top_not_key in T. cbn in E. now rewrite E in T.
  - (* stateDot *)
    destruct (strconv.isDigit c); [apply inv_continue; auto; exact Logic.I|].
    now apply inv_error.
  - (* stateDot0 *)
    unfold endNumber.
    repeat match goal with |- context [if ?b then _ else _] => destruct b end;
      try (apply inv_continue; auto; exact Logic.I).
    apply inv_endvalue; [now apply inv_val|].
    intros f rest E. unfold top_not_key in T. cbn in E. now rewrite E in T.
  - (* stateE *)
    unfold stateESign_.
    repeat match goal with |- context [if ?b then _ else _] => destruct b end;
      try (now apply inv_error); apply inv_continue; auto; exact Logic.I.
  - (* stateESign *)
    unfold stateESign_.
    repeat match goal with |- context [if ?b then _ else _] => destruct b end;
      try (now apply inv_error); apply inv_continue; auto; exact Logic.I.
  - (* stateE0 *)
    unfold endNumber.
    repeat match goal with |- context [if ?b then _ else _] => destruct b end;
      try (apply inv_continue; auto; exact Logic.I).
    apply inv_endvalue; [now apply inv_val|].
    intros f rest E. unfold top_not_key in T. cbn in E. now rewrite E in T.
  - now apply inv_expect.
  - now apply inv_expect.
  - now apply inv_expect.
  - now apply inv_expect.
  - now apply inv_expect.
  - now apply inv_expect.
  - now apply inv_expect.
  - now apply inv_expect.
  - now apply inv_expect.
  - now apply inv_expect.
  - exact I.
Qed.

Lemma scanner_inv_reset : scanner_inv reset.
Proof. repeat split; constructor. Qed.

Lemma scanner_inv_run data s :
  scanner_inv s -> scanner_inv (fold_left step_ data s).
Proof.
  revert s. induction data as [|c data IH]; intros s I; [exact I|].
  cbn [fold_left]. apply IH. now apply inv_step.
Qed.

(** In every state the scanner reaches, the two calls of [unquote_item]
    are on literals [unquoteBytes] accepts: at the closing quote of a
    string, and at the colon after an object key (where the scanner is
    in [stateEndValue]: with an object key on top of the parse states it
    is in no state that reads a number or a name). *)
Theorem unquote_item_safe data c :
  let s := fold_left step_ data reset in
  (step s = stateInString -> c = x22 ->
   unquoteBytes (rev (c :: item s)) <> None) /\
  (forall f rest, parseState s = (parseObjectKey, f) :: rest ->
     (step s = stateEndValue -> unquoteBytes (rev (item s)) <> None) /\
     ~ In (step s) [state0; state1; stateDot0; stateE0]).
Proof.
  intros s. pose proof (scanner_inv_run data reset scanner_inv_reset) as I.
  fold s in I. destruct I as (P & _ & K). split.
  - intros St ->. rewrite St in P. destruct P as (w & Hw & Sw).
    apply unquote_scanned. exists w. split; [now apply rev_cons_app|exact Sw].
  - intros f rest E. rewrite E in K. split.
    + intros St. rewrite St in K. now apply unquote_scanned.
    + cbn [In]. intros [H|[H|[H|[H|[]]]]]; rewrite <- H in K; exact K.
Qed.

End Scanner.

(** ** Facts about decoding the envelope *)

Lemma json_Unmarshal_nil v :
  json_Unmarshal [] v = (v, Some (SyntaxError "unexpected end of JSON input")).
Proof. reflexivity. Qed.

(** A body that decodes is not empty. *)
Lemma json_Unmarshal_ok_nonempty data v mb :
  json_Unmarshal data v = (mb, None) -> data <> [].
Proof. intros H ->. discriminate. Qed.

(** Invalid JSON is a decoding error. *)
Lemma json_Unmarshal_invalid data v :
  json.Valid data = false -> snd (json_Unmarshal data v) <> None.
Proof.
  unfold json.Valid, json_Unmarshal.
  destruct (json.err (json.checkValid data)); [discriminate|congruence].
Qed.

Lemma json_Unmarshal_valid data v :
  json.Valid data = true ->
  json_Unmarshal data v = decode.value (json.val (json.checkValid data)) v.
Proof.
  unfold json.Valid, json_Unmarshal.
  destruct (json.err (json.checkValid data)); [discriminate|reflexivity].
Qed.

Section Members.
Import decode.

(** What one member does to the saved error. *)
Lemma member_error d kv :
  clean_member kv -> snd (member d kv) = snd d.
Proof.
  destruct d as [v saved], kv as [k x]. unfold clean_member, member.
  cbn [fst snd]. destruct (lookup k) as [[| |]|]; intros C; cbn [snd];
    unfold store_string, store_interface; try reflexivity.
  - destruct x; cbn [snd] in *; try rewrite C; try reflexivity; discriminate.
  - now rewrite C.
  - destruct x; cbn [snd] in *; try rewrite C; try reflexivity; discriminate.
Qed.

Lemma member_error_kept d kv e :
  snd d = Some e -> snd (member d kv) = Some e.
Proof.
  destruct d as [v saved], kv as [k x]. cbn [snd]. intros ->.
  unfold member. destruct (lookup k) as [[| |]|]; try reflexivity.
  - destruct (store_string _ _ _) as [s [e'|]]; reflexivity.
  - destruct (store_interface _ _) as [s [e'|]]; reflexivity.
  - destruct (store_string _ _ _) as [s [e'|]]; reflexivity.
Qed.

Lemma member_error_new v kv :
  ~ clean_member kv -> snd (member (v, None) kv) <> None.
Proof.
  destruct kv as [k x]. unfold clean_member, member. cbn [fst snd].
  destruct (lookup k) as [[| |]|]; intros C; try tauto;
    unfold store_string, store_interface.
  - destruct x; cbn [mismatch] in *; cbn; congruence.
  - destruct (range_error x); cbn; congruence.
  - destruct x; cbn [mismatch] in *; cbn; congruence.
Qed.

Lemma members_error_kept ms d e :
  snd d = Some e -> snd (fold_left member ms d) = Some e.
Proof.
  revert d. induction ms as [|kv ms IH]; intros d H; [exact H|].
  cbn [fold_left]. apply IH. now apply member_error_kept.
Qed.

Lemma clean_member_dec kv : clean_member kv \/ ~ clean_member kv.
Proof.
  unfold clean_member. destruct (lookup (fst kv)) as [[| |]|]; auto.
  - destruct (mismatch (snd kv)); [right|left]; congruence.
  - destruct (range_error (snd kv)); [right|left]; congruence.
  - destruct (mismatch (snd kv)); [right|left]; congruence.
Qed.

(** An object decodes without error exactly when all its members are
    clean. *)
Lemma object_ok_iff ms v :
  snd (object ms v) = None <-> Forall clean_member ms.
Proof.
  unfold object. generalize v. clear v.
  induction ms as [|kv ms IH]; intros v; cbn [fold_left].
  - split; [constructor|reflexivity].
  - destruct (clean_member_dec kv) as [C|C].
    + pose proof (member_error (v, None) kv C) as E. cbn [snd] in E.
      destruct (member (v, None) kv) as [v' s']. cbn [snd] in E. subst s'.
      rewrite IH. split; [now constructor | now inversion 1].
    + pose proof (member_error_new v kv C) as E.
      destruct (snd (member (v, None) kv)) as [e|] eqn:Se; [|congruence].
      rewrite (members_error_kept ms _ e Se).
      split; [discriminate | inversion 1; contradiction].
Qed.

(** A member for another field leaves a field as it is. *)
Lemma member_Runner d kv :
  lookup (fst kv) <> Some FRunner -> Runner (fst (member d kv)) = Runner (fst d).
Proof.
  destruct d as [v saved], kv as [k x]. unfold member. cbn [fst].
  destruct (lookup k) as [[| |]|]; intros C; try congruence; try reflexivity;
    try (destruct (store_string _ _ _); reflexivity);
    destruct (store_interface _ _); reflexivity.
Qed.

Lemma member_InboxId d kv :
  lookup (fst kv) <> Some FInboxId -> InboxId (fst (member d kv)) = InboxId (fst d).
Proof.
  destruct d as [v saved], kv as [k x]. unfold member. cbn [fst].
  destruct (lookup k) as [[| |]|]; intros C; try congruence; try reflexivity;
    try (destruct (store_string _ _ _); reflexivity);
    destruct (store_interface _ _); reflexivity.
Qed.

Lemma members_Runner ms d :
  Forall (fun kv => lookup (fst kv) <> Some FRunner) ms ->
  Runner (fst (fold_left member ms d)) = Runner (fst d).
Proof.
  revert d. induction ms as [|kv ms IH]; intros d H; [reflexivity|].
  inversion H; subst. cbn [fold_left]. rewrite IH by assumption.
  now apply member_Runner.
Qed.

Lemma members_InboxId ms d :
  Forall (fun kv => lookup (fst kv) <> Some FInboxId) ms ->
  InboxId (fst (fold_left member ms d)) = InboxId (fst d).
Proof.
  revert d. induction ms as [|kv ms IH]; intros d H; [reflexivity|].
  inversion H; subst. cbn [fold_left]. rewrite IH by assumption.
  now apply member_InboxId.
Qed.

(** Decoding succeeds exactly on the decodable values. *)
Lemma value_ok_iff x v : snd (value x v) = None <-> decodable x.
Proof.
  destruct x; cbn [value decodable snd]; try (split; [discriminate|tauto]).
  - tauto.
  - apply object_ok_iff.
Qed.

(** A field without a member keeps its value. *)
Lemma value_omits_Runner x v :
  omits FRunner x -> Runner (fst (value x v)) = Runner v.
Proof.
  unfold omits. destruct x; cbn [value members_of fst]; try reflexivity.
  intros H. unfold object. now rewrite members_Runner.
Qed.

Lemma value_omits_InboxId x v :
  omits FInboxId x -> InboxId (fst (value x v)) = InboxId v.
Proof.
  unfold omits. destruct x; cbn [value members_of fst]; try reflexivity.
  intros H. unfold object. now rewrite members_InboxId.
Qed.

End Members.

(** ** The four paths of [Handle] *)

Section Paths.

Variable nats : Nats.
Variable req : Request.

Let body := req_Body req.
Let msg := message body.

Lemma run_connect_fails e :
  nats_Connect nats url creds = inr e ->
  run (Handle nats req) =
  ((mkResponse (bytes_of_string ("can not connect to nats: " +++ Error e))
               StatusInternalServerError, Some e),
   prologue body ++ [EvLogPrintf ("can not connect to nats: " +++ Error e) []]).
Proof.
  intros H. unfold run, Handle, Connect, bind, emit, ret, fmt_Println, log_Printf.
  cbn. rewrite H. reflexivity.
Qed.

Lemma run_decode_fails nc mb je :
  nats_Connect nats url creds = inl nc ->
  json_Unmarshal body zero_MessageBody = (mb, Some je) ->
  run (Handle nats req) =
  ((mkResponse (B "Error unmarshalling request body")
               StatusInternalServerError, None),
   prologue body ++
   [EvLogPrintf "request body: %s" [ArgBytes body];
    EvUnmarshal body;
    EvLogPrintf "Error unmarshalling request body: %s" [ArgError je];
    EvClose]).
Proof.
  intros H J.
  unfold run, Handle, Connect, Unmarshal, defer, Close, bind, emit, ret,
    fmt_Println, log_Printf.
  cbn. rewrite H. cbn. fold body. rewrite J. reflexivity.
Qed.

Lemma run_publish_fails nc mb e :
  nats_Connect nats url creds = inl nc ->
  json_Unmarshal body zero_MessageBody = (mb, None) ->
  conn_PublishRequest nc (Runner mb +++ ".response") (InboxId mb)
                      (bytes_of_string msg) = Some e ->
  run (Handle nats req) =
  ((mkResponse (bytes_of_string ("can not publish to NATS: " +++ Error e))
               StatusInternalServerError, Some e),
   prologue body ++
   [EvLogPrintf "request body: %s" [ArgBytes body];
    EvUnmarshal body;
    EvLogPrintf ("Publishing %d bytes to: %q" +++ newline)
                [ArgInt (Z.of_nat (String.length msg)); ArgString (InboxId mb)];
    EvPublishRequest (Runner mb +++ ".response") (InboxId mb)
                     (bytes_of_string msg);
    EvLogPrintf "Error publishing to nats: %s" [ArgError e];
    EvClose]).
Proof.
  intros H J P.
  unfold run, Handle, Connect, Unmarshal, PublishRequest, defer, Close, bind,
    emit, ret, fmt_Println, log_Printf.
  cbn. rewrite H. cbn. fold body. rewrite J. cbn. fold msg. rewrite P.
  reflexivity.
Qed.

Lemma run_success nc mb :
  nats_Connect nats url creds = inl nc ->
  json_Unmarshal body zero_MessageBody = (mb, None) ->
  conn_PublishRequest nc (Runner mb +++ ".response") (InboxId mb)
                      (bytes_of_string msg) = None ->
  run (Handle nats req) =
  ((mkResponse
      (bytes_of_string
         ("Published " +++ strconv.Itoa (Z.of_nat (String.length msg))
            +++ " bytes to: " +++ strconv.Quote "runner"))
      StatusOK, None),
   prologue body ++
   [EvLogPrintf "request body: %s" [ArgBytes body];
    EvUnmarshal body;
    EvLogPrintf ("Publishing %d bytes to: %q" +++ newline)
                [ArgInt (Z.of_nat (String.length msg)); ArgString (InboxId mb)];
    EvPublishRequest (Runner mb +++ ".response") (InboxId mb)
                     (bytes_of_string msg);
    EvClose]).
Proof.
  intros H J P.
  unfold run, Handle, Connect, Unmarshal, PublishRequest, defer, Close, bind,
    emit, ret, fmt_Println, log_Printf.
  cbn. rewrite H. cbn. fold body. rewrite J. cbn. fold msg. rewrite P.
  reflexivity.
Qed.

End Paths.

(** ** Runs of the handler *)

(** The scenario of a body that is the JSON value [null]: the whole
    trace of the invocation. *)
Example Handle_null :
  run (Handle nats_ok (mkRequest (B "null")))
  = ((mkResponse (J "Published 4 bytes to: 'runner'") StatusOK, None),
     [EvPrintln "Received body: null";
      EvConnect "tls://connect.ngs.global" "/var/openfaas/secrets/nts-tkn";
      EvLogPrintf "request body: %s" [ArgBytes (B "null")];
      EvUnmarshal (B "null");
      EvLogPrintf ("Publishing %d bytes to: %q" +++ newline)
                  [ArgInt 4; ArgString ""];
      EvPublishRequest ".response" "" (B "null");
      EvClose]).
Proof. vm_compute. reflexivity. Qed.

Example Handle_empty_body :
  run (Handle nats_ok (mkRequest []))
  = ((mkResponse (B "Error unmarshalling request body")
                 StatusInternalServerError, None),
     [EvPrintln "Received body: ";
      EvConnect "tls://connect.ngs.global" "/var/openfaas/secrets/nts-tkn";
      EvLogPrintf "request body: %s" [ArgBytes []];
      EvUnmarshal [];
      EvLogPrintf "Error unmarshalling request body: %s"
                  [ArgError (SyntaxError "unexpected end of JSON input")];
      EvClose]).
Proof. vm_compute. reflexivity. Qed.

Example Handle_array_body :
  response nats_ok (mkRequest (B "[]"))
  = mkResponse (B "Error unmarshalling request body") StatusInternalServerError /\
  publishes (trace nats_ok (mkRequest (B "[]"))) = [].
Proof. split; vm_compute; reflexivity. Qed.

Example Handle_missing_runner :
  publishes (trace nats_ok (mkRequest (J "{'inbox_id': 'in-1'}")))
  = [(".response", "in-1", J "{'inbox_id': 'in-1'}")].
Proof. vm_compute. reflexivity. Qed.

(** ** The handler *)

Lemma length_bytes_of_string s :
  List.length (bytes_of_string s) = String.length s.
Proof.
  unfold bytes_of_string, list_byte_of_string.
  induction s as [|c s IH]; [reflexivity|].
  cbn [list_ascii_of_string map Datatypes.length String.length]. now rewrite IH.
Qed.

Lemma message_nonempty body :
  body <> [] -> message body = string_of_bytes (Bytes.TrimSpace body).
Proof.
  intros H. unfold message, len. destruct body; [congruence|]. reflexivity.
Qed.

Lemma payload_nonempty body :
  body <> [] -> bytes_of_string (message body) = Bytes.TrimSpace body.
Proof.
  intros H. rewrite message_nonempty by exact H. apply bytes_of_string_of_bytes.
Qed.

Lemma contains_suffix pre s : contains (pre +++ s) s.
Proof.
  exists pre, "". f_equal. induction s as [|c s IH]; [reflexivity|].
  cbn. now rewrite <- IH.
Qed.

(** The publish calls of an invocation, path by path: none unless the
    connection and the decoding succeed, and then exactly one. *)
Lemma publishes_connect_fails nats req e :
  nats_Connect nats url creds = inr e -> publishes (trace nats req) = [].
Proof. intros H. unfold trace. now rewrite (run_connect_fails _ _ _ H). Qed.

Lemma publishes_decode_fails nats req nc mb je :
  nats_Connect nats url creds = inl nc ->
  json_Unmarshal (req_Body req) zero_MessageBody = (mb, Some je) ->
  publishes (trace nats req) = [].
Proof. intros H J. unfold trace. now rewrite (run_decode_fails _ _ _ _ _ H J). Qed.

Lemma publishes_decoded nats req nc mb :
  nats_Connect nats url creds = inl nc ->
  json_Unmarshal (req_Body req) zero_MessageBody = (mb, None) ->
  publishes (trace nats req)
  = [(Runner mb +++ ".response", InboxId mb,
      bytes_of_string (message (req_Body req)))].
Proof.
  intros H J. unfold trace.
  destruct (conn_PublishRequest nc (Runner mb +++ ".response") (InboxId mb)
              (bytes_of_string (message (req_Body req)))) as [e|] eqn:P.
  - now rewrite (run_publish_fails _ _ _ _ _ H J P).
  - now rewrite (run_success _ _ _ _ H J P).
Qed.

(** C1. A body that decodes as an envelope with inbox_id "abc123" and
    runner "workerA" is published once, on subject "workerA.response",
    with reply address "abc123" and the trimmed body as payload, and the
    response is a 200, when connecting and publishing succeed.  The
    payload is the body without the white space at its two ends: the
    body is the payload between two runs of white space, and the payload
    neither begins nor ends with a white-space rune. *)
Theorem C1_valid_envelope_is_published nats req nc mb :
  nats_Connect nats url creds = inl nc ->
  json_Unmarshal (req_Body req) zero_MessageBody = (mb, None) ->
  InboxId mb = "abc123" ->
  Runner mb = "workerA" ->
  conn_PublishRequest nc "workerA.response" "abc123"
                      (Bytes.TrimSpace (req_Body req)) = None ->
  publishes (trace nats req)
  = [("workerA.response", "abc123", Bytes.TrimSpace (req_Body req))] /\
  (exists pre post,
     req_Body req = pre ++ Bytes.TrimSpace (req_Body req) ++ post /\
     all_space pre /\ all_space post /\
     unicode.IsSpace (fst (utf8.DecodeRune (Bytes.TrimSpace (req_Body req))))
     = false /\
     unicode.IsSpace (fst (utf8.DecodeLastRune (Bytes.TrimSpace (req_Body req))))
     = false) /\
  StatusCode (response nats req) = StatusOK /\
  returned_error nats req = None.
Proof.
  intros H J I R P.
  pose proof (payload_nonempty _ (json_Unmarshal_ok_nonempty _ _ _ J)) as E.
  assert (conn_PublishRequest nc (Runner mb +++ ".response") (InboxId mb)
            (bytes_of_string (message (req_Body req))) = None) as P'.
  { now rewrite I, R, E. }
  split; [|split; [apply TrimSpace_spec|]];
    unfold trace, response, returned_error;
    rewrite (run_success _ _ _ _ H J P'); cbn [fst snd StatusCode].
  - now rewrite I, R, E.
  - split; reflexivity.
Qed.

(** The envelope [envelope_abc123] has one space before and one after
    the object; the payload published is the object alone. *)
Lemma C1_witness :
  publishes (trace nats_ok (mkRequest envelope_abc123))
  = [("workerA.response", "abc123",
      J "{'inbox_id': 'abc123', 'runner': 'workerA', 'output': {'lines': [1, 2.5, null]}}")] /\
  (exists pre post,
     envelope_abc123
     = pre ++ J "{'inbox_id': 'abc123', 'runner': 'workerA', 'output': {'lines': [1, 2.5, null]}}"
           ++ post /\
     all_space pre /\ all_space post /\
     unicode.IsSpace
       (fst (utf8.DecodeRune
          (J "{'inbox_id': 'abc123', 'runner': 'workerA', 'output': {'lines': [1, 2.5, null]}}")))
     = false /\
     unicode.IsSpace
       (fst (utf8.DecodeLastRune
          (J "{'inbox_id': 'abc123', 'runner': 'workerA', 'output': {'lines': [1, 2.5, null]}}")))
     = false) /\
  StatusCode (response nats_ok (mkRequest envelope_abc123)) = StatusOK /\
  returned_error nats_ok (mkRequest envelope_abc123) = None.
Proof.
  assert (Bytes.TrimSpace (req_Body (mkRequest envelope_abc123))
          = J "{'inbox_id': 'abc123', 'runner': 'workerA', 'output': {'lines': [1, 2.5, null]}}")
    as E by (vm_compute; reflexivity).
  rewrite <- E.
  apply (C1_valid_envelope_is_published nats_ok (mkRequest envelope_abc123)
           (mkConn (fun _ _ _ => None))
           (fst (json_Unmarshal envelope_abc123 zero_MessageBody)));
    vm_compute; reflexivity.
Defined.

(** C2. When the connection succeeded and the body does not decode, the
    response is a 500 whose body is "Error unmarshalling request body",
    and nothing is published. *)
Theorem C2_decode_failure_response nats req nc :
  nats_Connect nats url creds = inl nc ->
  snd (json_Unmarshal (req_Body req) zero_MessageBody) <> None ->
  response nats req
  = mkResponse (B "Error unmarshalling request body") StatusInternalServerError /\
  publishes (trace nats req) = [].
Proof.
  intros H J.
  destruct (json_Unmarshal (req_Body req) zero_MessageBody) as [mb [je|]] eqn:U;
    [|cbn in J; congruence].
  unfold trace, response. rewrite (run_decode_fails _ _ _ _ _ H U).
  split; reflexivity.
Qed.

Lemma C2_witness :
  response nats_ok (mkRequest (B "hello"))
  = mkResponse (B "Error unmarshalling request body") StatusInternalServerError /\
  publishes (trace nats_ok (mkRequest (B "hello"))) = [].
Proof.
  apply (C2_decode_failure_response nats_ok (mkRequest (B "hello"))
           (mkConn (fun _ _ _ => None))).
  - reflexivity.
  - vm_compute. discriminate.
Defined.

(** C3, as written, fails: with a broker that accepts everything, an
    empty body is answered with a 500 and nothing is published. *)
Lemma C3_counterexample : ~ empty_body_is_published nats_ok (mkRequest []).
Proof.
  intros H. destruct (H eq_refl) as [S _]. vm_compute in S. discriminate.
Qed.

(** C3, amended. For an empty body the message extracted is the default
    message, but the body is not an envelope: nothing is published, and
    when the connection succeeds the response is the 500 of a decoding
    failure. *)
Theorem C3_empty_body_default_message_unpublished nats req :
  req_Body req = [] ->
  message (req_Body req) = "default message" /\
  publishes (trace nats req) = [] /\
  forall nc, nats_Connect nats url creds = inl nc ->
    response nats req
    = mkResponse (B "Error unmarshalling request body")
                 StatusInternalServerError.
Proof.
  intros E.
  assert (json_Unmarshal (req_Body req) zero_MessageBody
          = (zero_MessageBody, Some (SyntaxError "unexpected end of JSON input")))
    as U by (rewrite E; reflexivity).
  split; [now rewrite E|]. split.
  - destruct (nats_Connect nats url creds) as [nc|e] eqn:H.
    + exact (publishes_decode_fails _ _ _ _ _ H U).
    + exact (publishes_connect_fails _ _ _ H).
  - intros nc H. unfold response. now rewrite (run_decode_fails _ _ _ _ _ H U).
Qed.

Lemma C3_witness :
  message [] = "default message" /\
  publishes (trace nats_ok (mkRequest [])) = [] /\
  forall nc, nats_Connect nats_ok url creds = inl nc ->
    response nats_ok (mkRequest [])
    = mkResponse (B "Error unmarshalling request body")
                 StatusInternalServerError.
Proof.
  apply (C3_empty_body_default_message_unpublished nats_ok (mkRequest [])).
  reflexivity.
Defined.

(** C4. On a decoding failure the error returned next to the response is
    the error variable of the connection, which is nil at that point; it
    is not the decoding error.  Nothing is published. *)
Theorem C4_decode_failure_returns_connect_error nats req nc mb je :
  nats_Connect nats url creds = inl nc ->
  json_Unmarshal (req_Body req) zero_MessageBody = (mb, Some je) ->
  returned_error nats req = errOf (nats_Connect nats url creds) /\
  returned_error nats req = None /\
  returned_error nats req <> Some je /\
  StatusCode (response nats req) = StatusInternalServerError /\
  publishes (trace nats req) = [].
Proof.
  intros H U. unfold trace, response, returned_error.
  rewrite (run_decode_fails _ _ _ _ _ H U), H. cbn.
  repeat split; congruence.
Qed.

Lemma C4_witness :
  returned_error nats_ok (mkRequest (B "hello"))
  = errOf (nats_Connect nats_ok url creds) /\
  returned_error nats_ok (mkRequest (B "hello")) = None /\
  returned_error nats_ok (mkRequest (B "hello"))
  <> Some (SyntaxError "invalid character 'h' looking for beginning of value") /\
  StatusCode (response nats_ok (mkRequest (B "hello")))
  = StatusInternalServerError /\
  publishes (trace nats_ok (mkRequest (B "hello"))) = [].
Proof.
  apply (C4_decode_failure_returns_connect_error nats_ok (mkRequest (B "hello"))
           (mkConn (fun _ _ _ => None)) zero_MessageBody);
    vm_compute; reflexivity.
Defined.

(** C5. When the connection fails nothing is decoded and nothing is
    published; the response is a 500 whose body contains the text of the
    connection error, and that error is returned. *)
Theorem C5_connect_failure nats req e :
  nats_Connect nats url creds = inr e ->
  existsb is_unmarshal (trace nats req) = false /\
  publishes (trace nats req) = [] /\
  StatusCode (response nats req) = StatusInternalServerError /\
  Body (response nats req)
  = bytes_of_string ("can not connect to nats: " +++ Error e) /\
  contains (string_of_bytes (Body (response nats req))) (Error e) /\
  returned_error nats req = Some e.
Proof.
  intros H. unfold trace, response, returned_error.
  rewrite (run_connect_fails _ _ _ H). cbn [fst snd Body StatusCode].
  repeat split.
  unfold string_of_bytes, bytes_of_string.
  rewrite string_of_list_byte_of_string. apply contains_suffix.
Qed.

Lemma C5_witness :
  let nats := nats_down "nats: no servers available for connection" in
  let req := mkRequest envelope_abc123 in
  existsb is_unmarshal (trace nats req) = false /\
  publishes (trace nats req) = [] /\
  StatusCode (response nats req) = StatusInternalServerError /\
  Body (response nats req)
  = B "can not connect to nats: nats: no servers available for connection" /\
  contains (string_of_bytes (Body (response nats req)))
           "nats: no servers available for connection" /\
  returned_error nats req
  = Some (NatsError "nats: no servers available for connection").
Proof.
  apply (C5_connect_failure
           (nats_down "nats: no servers available for connection")
           (mkRequest envelope_abc123)
           (NatsError "nats: no servers available for connection")).
  reflexivity.
Defined.

Ltac close_last :=
  match goal with
  | |- exists t, ?l = _ /\ _ => exists (removelast l); split; reflexivity
  end.

(** C6. After a successful connect the connection is closed exactly
    once, as the last thing the invocation does, whatever the path; and
    when the publish fails the response is a 500 whose body contains the
    text of the publish error. *)
Theorem C6_publish_failure_and_release nats req nc :
  nats_Connect nats url creds = inl nc ->
  (exists t, trace nats req = t ++ [EvClose] /\ existsb is_close t = false) /\
  forall mb e,
    json_Unmarshal (req_Body req) zero_MessageBody = (mb, None) ->
    conn_PublishRequest nc (Runner mb +++ ".response") (InboxId mb)
                        (bytes_of_string (message (req_Body req))) = Some e ->
    StatusCode (response nats req) = StatusInternalServerError /\
    Body (response nats req)
    = bytes_of_string ("can not publish to NATS: " +++ Error e) /\
    contains (string_of_bytes (Body (response nats req))) (Error e) /\
    returned_error nats req = Some e.
Proof.
  intros H. split.
  - unfold trace.
    destruct (json_Unmarshal (req_Body req) zero_MessageBody) as [mb [je|]] eqn:U.
    + rewrite (run_decode_fails _ _ _ _ _ H U). cbn [snd].
      close_last.
    + destruct (conn_PublishRequest nc (Runner mb +++ ".response") (InboxId mb)
                  (bytes_of_string (message (req_Body req)))) as [e|] eqn:P.
      * rewrite (run_publish_fails _ _ _ _ _ H U P). cbn [snd].
        close_last.
      * rewrite (run_success _ _ _ _ H U P). cbn [snd].
        close_last.
  - intros mb e U P. unfold response, returned_error.
    rewrite (run_publish_fails _ _ _ _ _ H U P). cbn [fst snd Body StatusCode].
    repeat split.
    unfold string_of_bytes, bytes_of_string.
    rewrite string_of_list_byte_of_string. apply contains_suffix.
Qed.


Lemma C6_witness :
  let nats := nats_nopub "nats: connection closed" in
  let req := mkRequest envelope_abc123 in
  (exists t, trace nats req = t ++ [EvClose] /\ existsb is_close t = false) /\
  StatusCode (response nats req) = StatusInternalServerError /\
  Body (response nats req)
  = B "can not publish to NATS: nats: connection closed" /\
  contains (string_of_bytes (Body (response nats req)))
           "nats: connection closed" /\
  returned_error nats req = Some (NatsError "nats: connection closed").
Proof.
  destruct (C6_publish_failure_and_release
              (nats_nopub "nats: connection closed")
              (mkRequest envelope_abc123)
              (mkConn (fun _ _ _ => Some (NatsError "nats: connection closed")))
              eq_refl) as [Hclose Hfail].
  split; [exact Hclose|].
  apply (Hfail (fst (json_Unmarshal envelope_abc123 zero_MessageBody))
               (NatsError "nats: connection closed"));
    vm_compute; reflexivity.
Defined.

(** C7. For a body that is not empty the message is the body without
    the white space at its two ends: the body is the message between two
    runs of white space, and the message neither begins nor ends with a
    white-space rune.  Whatever is published is that message.  (The
    extraction is a total function: it cannot fail.) *)
Theorem C7_nonempty_body_is_trimmed req :
  req_Body req <> [] ->
  message (req_Body req) = string_of_bytes (Bytes.TrimSpace (req_Body req)) /\
  (exists pre post,
     req_Body req = pre ++ Bytes.TrimSpace (req_Body req) ++ post /\
     all_space pre /\ all_space post /\
     unicode.IsSpace (fst (utf8.DecodeRune (Bytes.TrimSpace (req_Body req))))
     = false /\
     unicode.IsSpace (fst (utf8.DecodeLastRune (Bytes.TrimSpace (req_Body req))))
     = false) /\
  forall nats,
    Forall (fun p => snd p = Bytes.TrimSpace (req_Body req))
           (publishes (trace nats req)).
Proof.
  intros Hne. split; [now apply message_nonempty|].
  split; [apply TrimSpace_spec|].
  intros nats.
  destruct (nats_Connect nats url creds) as [nc|e] eqn:H.
  - destruct (json_Unmarshal (req_Body req) zero_MessageBody) as [mb [je|]] eqn:U.
    + rewrite (publishes_decode_fails _ _ _ _ _ H U). constructor.
    + rewrite (publishes_decoded _ _ _ _ H U).
      repeat constructor. cbn [snd]. now apply payload_nonempty.
  - rewrite (publishes_connect_fails _ _ _ H). constructor.
Qed.

Lemma C7_witness :
  (message (B "  X  ") = string_of_bytes (Bytes.TrimSpace (B "  X  ")) /\
   (exists pre post,
      B "  X  " = pre ++ Bytes.TrimSpace (B "  X  ") ++ post /\
      all_space pre /\ all_space post /\
      unicode.IsSpace (fst (utf8.DecodeRune (Bytes.TrimSpace (B "  X  "))))
      = false /\
      unicode.IsSpace (fst (utf8.DecodeLastRune (Bytes.TrimSpace (B "  X  "))))
      = false) /\
   forall nats,
     Forall (fun p => snd p = Bytes.TrimSpace (B "  X  "))
            (publishes (trace nats (mkRequest (B "  X  "))))) /\
  message (B "  X  ") = "X".
Proof.
  split; [|reflexivity].
  apply (C7_nonempty_body_is_trimmed (mkRequest (B "  X  "))).
  discriminate.
Defined.

(** C8. On full success the response is a 200 whose body reports the
    number of bytes published, followed by the literal "runner" in
    quotes, whatever runner the envelope names. *)
Theorem C8_success_confirmation nats req nc mb :
  nats_Connect nats url creds = inl nc ->
  json_Unmarshal (req_Body req) zero_MessageBody = (mb, None) ->
  conn_PublishRequest nc (Runner mb +++ ".response") (InboxId mb)
                      (bytes_of_string (message (req_Body req))) = None ->
  exists payload,
    publishes (trace nats req)
    = [(Runner mb +++ ".response", InboxId mb, payload)] /\
    StatusCode (response nats req) = StatusOK /\
    Body (response nats req)
    = bytes_of_string ("Published " +++ strconv.Itoa (len payload)
                         +++ " bytes to: " +++ dquote +++ "runner" +++ dquote).
Proof.
  intros H U P. exists (bytes_of_string (message (req_Body req))).
  rewrite (publishes_decoded _ _ _ _ H U).
  unfold response. rewrite (run_success _ _ _ _ H U P).
  cbn [fst StatusCode Body]. unfold len. rewrite length_bytes_of_string.
  repeat split.
Qed.

Lemma C8_witness :
  (exists payload,
     publishes (trace nats_ok (mkRequest envelope_abc123))
     = [("workerA" +++ ".response", "abc123", payload)] /\
     StatusCode (response nats_ok (mkRequest envelope_abc123)) = StatusOK /\
     Body (response nats_ok (mkRequest envelope_abc123))
     = bytes_of_string ("Published " +++ strconv.Itoa (len payload)
                          +++ " bytes to: " +++ dquote +++ "runner" +++ dquote)) /\
  Body (response nats_ok (mkRequest envelope_abc123))
  = J "Published 80 bytes to: 'runner'".
Proof.
  split; [|vm_compute; reflexivity].
  apply (C8_success_confirmation nats_ok (mkRequest envelope_abc123)
           (mkConn (fun _ _ _ => None))
           (mkMessageBody "abc123"
              (Output (fst (json_Unmarshal envelope_abc123 zero_MessageBody)))
              "workerA"));
    vm_compute; reflexivity.
Defined.

(** C9, as written, fails: "[]" is valid JSON without a runner or an
    inbox_id member, and it does not decode as the envelope. *)
Lemma C9_counterexample :
  ~ valid_json_without_fields_decodes nats_ok (mkRequest (B "[]")).
Proof.
  intros H.
  destruct (H eq_refl) as (mb & U & _).
  - left. unfold omits. vm_compute. constructor.
  - vm_compute in U. discriminate.
Qed.

(** C9, amended. A body that is valid JSON and whose value is [null] or
    an object of clean members decodes; a field the value has no member
    for is the empty string; and, the connection given, the publish is
    made: with no runner member on subject ".response", with no inbox_id
    member with the empty reply address. *)
Theorem C9_decodable_body_missing_fields nats req nc :
  nats_Connect nats url creds = inl nc ->
  json.Valid (req_Body req) = true ->
  decodable (json.val (json.checkValid (req_Body req))) ->
  exists mb,
    json_Unmarshal (req_Body req) zero_MessageBody = (mb, None) /\
    publishes (trace nats req)
    = [(Runner mb +++ ".response", InboxId mb,
        Bytes.TrimSpace (req_Body req))] /\
    (omits decode.FRunner (json.val (json.checkValid (req_Body req))) ->
     Runner mb = "" /\ Runner mb +++ ".response" = ".response") /\
    (omits decode.FInboxId (json.val (json.checkValid (req_Body req))) ->
     InboxId mb = "").
Proof.
  intros H V D.
  pose proof (json_Unmarshal_valid _ zero_MessageBody V) as E.
  apply (value_ok_iff _ zero_MessageBody) in D.
  destruct (decode.value _ zero_MessageBody) as [mb e] eqn:Dv.
  cbn [snd] in D. subst e.
  exists mb. split; [exact E|]. split; [|split].
  - rewrite (publishes_decoded _ _ _ _ H E).
    now rewrite (payload_nonempty _ (json_Unmarshal_ok_nonempty _ _ _ E)).
  - intros O. pose proof (value_omits_Runner _ zero_MessageBody O) as R.
    rewrite Dv in R. cbn in R. now rewrite R.
  - intros O. pose proof (value_omits_InboxId _ zero_MessageBody O) as R.
    rewrite Dv in R. exact R.
Qed.

Lemma C9_witness :
  exists mb,
    json_Unmarshal (B "{}") zero_MessageBody = (mb, None) /\
    publishes (trace nats_ok (mkRequest (B "{}")))
    = [(Runner mb +++ ".response", InboxId mb, Bytes.TrimSpace (B "{}"))] /\
    (omits decode.FRunner (json.val (json.checkValid (B "{}"))) ->
     Runner mb = "" /\ Runner mb +++ ".response" = ".response") /\
    (omits decode.FInboxId (json.val (json.checkValid (B "{}"))) ->
     InboxId mb = "").
Proof.
  apply (C9_decodable_body_missing_fields nats_ok (mkRequest (B "{}"))
           (mkConn (fun _ _ _ => None)) eq_refl).
  - vm_compute. reflexivity.
  - cbn [req_Body].
    replace (json.val (json.checkValid (B "{}"))) with (json.JObject [])
      by (vm_compute; reflexivity).
    constructor.
Defined.

(** C10. A body of white space only, when it is not empty, gives the
    empty message, not the default one: for such bodies the message is
    the default message exactly when the body has length zero. *)
Theorem C10_whitespace_only_body body :
  all_space body ->
  (body <> [] -> message body = "") /\
  (message body = "default message" <-> body = []).
Proof.
  intros A.
  assert (body <> [] -> message body = "") as E.
  { intros Hne. rewrite message_nonempty by exact Hne.
    now rewrite TrimSpace_all_space. }
  split; [exact E|]. split.
  - intros M. destruct body as [|c t]; [reflexivity|].
    rewrite E in M by discriminate. discriminate.
  - intros ->. reflexivity.
Qed.

Lemma blanks_all_space : all_space blanks.
Proof.
  exact (all_space_cons 0x20 _ eq_refl
        (all_space_cons 0x09 _ eq_refl
        (all_space_cons 0x3000 _ eq_refl
        (all_space_cons 0x0A _ eq_refl
        (all_space_cons 0xA0 _ eq_refl all_space_nil))))).
Qed.

Lemma C10_witness :
  (blanks <> [] -> message blanks = "") /\
  (message blanks = "default message" <-> blanks = []).
Proof.
  apply (C10_whitespace_only_body blanks). exact blanks_all_space.
Defined.

(** ** White space around a JSON document *)

Section Document.
Import json.

Ltac flags_simpl :=
  unfold scanner_flags, live, error_, pushParseState, popParseState, set_step,
    set_val, set_parseState, beginLiteral, continue, stateEndTop_ in *;
  cbn [step item parseState endTop err val tl fst snd] in *.

Lemma flags_error s c ctx : scanner_flags (error_ s c ctx).
Proof. flags_simpl. repeat split; auto; congruence. Qed.

Lemma flags_val s v : scanner_flags s -> scanner_flags (set_val s v).
Proof. flags_simpl. auto. Qed.

Lemma live_val s v : live s -> live (set_val s v).
Proof. flags_simpl. auto. Qed.

Lemma flags_continue s st c :
  live s -> st <> stateError -> scanner_flags (continue s st c).
Proof. flags_simpl. intros [E1 E2] N. repeat split; try congruence. Qed.

Lemma flags_beginLiteral s st c :
  live s -> st <> stateError -> scanner_flags (beginLiteral s st c).
Proof. flags_simpl. intros [E1 E2] N. repeat split; try congruence. Qed.

Lemma flags_push s st c ps :
  live s -> st <> stateError ->
  scanner_flags (pushParseState (set_step s st) c ps).
Proof.
  intros [E1 E2] N. unfold pushParseState.
  destruct (len _ <=? maxNestingDepth); [|apply flags_error].
  flags_simpl. repeat split; try congruence.
Qed.

Lemma flags_pop s v : live s -> scanner_flags (popParseState s v).
Proof.
  intros [E1 E2]. flags_simpl.
  destruct (tl (parseState s)); cbn [step endTop err];
    repeat split; auto; try congruence.
Qed.

Lemma flags_endvalue s c : live s -> scanner_flags (stateEndValue_ s c).
Proof.
  intros L. pose proof L as [E1 E2]. unfold stateEndValue_.
  destruct (parseState s) as [|[ps f] rest] eqn:P.
  - unfold stateEndTop_. destruct (negb (isSpace c)); [apply flags_error|].
    flags_simpl. repeat split; auto; try congruence.
  - destruct (isSpace c).
    { flags_simpl. repeat split; try congruence. }
    destruct ps;
      repeat match goal with |- context [if ?b then _ else _] => destruct b end;
      try apply flags_error; try (apply flags_pop; exact L);
      flags_simpl; repeat split; try congruence.
Qed.

Lemma flags_live s :
  scanner_flags s -> step s <> stateEndTop -> step s <> stateError -> live s.
Proof.
  intros [F1 F2] N1 N2. split.
  - destruct (endTop s); [|reflexivity]. destruct (F1 eq_refl); contradiction.
  - destruct (err s) eqn:E; [|reflexivity].
    exfalso. apply N2, F2. congruence.
Qed.

Lemma flags_expect s c want next v ctx :
  live s -> next <> stateError -> scanner_flags (expect s c want next v ctx).
Proof.
  intros L N. unfold expect. destruct (b2z c =? b2z want); [|apply flags_error].
  destruct v; [apply flags_val|]; now apply flags_continue.
Qed.

Lemma flags_begin_value s c : live s -> scanner_flags s -> scanner_flags (stateBeginValue_ s c).
Proof.
  intros L F.
  destruct (stateBeginValue_cases s c)
    as [E|[E|[E|[[-> E]|[(st & Hin & E)|[ctx E]]]]]]; rewrite E.
  - exact F.
  - apply flags_push; [exact L|discriminate].
  - apply flags_push; [exact L|discriminate].
  - apply flags_beginLiteral; [exact L|discriminate].
  - apply flags_beginLiteral; [exact L|].
    cbn [In] in Hin. repeat (destruct Hin as [<-|Hin]; [discriminate|]).
    contradiction.
  - apply flags_error.
Qed.

Lemma flags_begin_string s c : live s -> scanner_flags s -> scanner_flags (stateBeginString_ s c).
Proof.
  intros L F. unfold stateBeginString_.
  destruct (isSpace c); [exact F|].
  destruct (b2z c =? 34); [|apply flags_error].
  apply flags_beginLiteral; [exact L|discriminate].
Qed.

Ltac flags_ifs L :=
  repeat match goal with |- context [if ?b then _ else _] => destruct b end;
  try apply flags_error;
  try (apply flags_continue; [exact L|discriminate]);
  try (apply flags_expect; [exact L|discriminate]).

(** Every step of the scanner keeps the flags in line with the state. *)
Lemma flags_step s c : scanner_flags s -> scanner_flags (step_ s c).
Proof.
  intros F.
  destruct (step s) eqn:St;
    try (assert (live s) as L
           by (apply flags_live; [exact F|rewrite St; discriminate
                                         |rewrite St; discriminate]));
    try (rewrite stateInStringEsc_step by exact St);
    try (unfold step_; rewrite St).
  - unfold stateBeginValueOrEmpty_. destruct (isSpace c); [exact F|].
    destruct (b2z c =? 93); [now apply flags_pop | now apply flags_begin_value].
  - now apply flags_begin_value.
  - unfold stateBeginStringOrEmpty_. destruct (isSpace c); [exact F|].
    destruct (b2z c =? 125); [|now apply flags_begin_string].
    destruct (parseState s) as [|[ps f] rest]; apply flags_endvalue; exact L.
  - now apply flags_begin_string.
  - now apply flags_endvalue.
  - unfold stateEndTop_. destruct (negb (isSpace c)); [apply flags_error|exact F].
  - destruct (b2z c =? 34).
    + apply flags_val. apply flags_continue; [exact L|discriminate].
    + flags_ifs L.
  - flags_ifs L.
  - flags_ifs L.
  - flags_ifs L.
  - flags_ifs L.
  - flags_ifs L.
  - flags_ifs L.
  - unfold state0_, endNumber. flags_ifs L.
    apply flags_endvalue. now apply live_val.
  - unfold state0_, endNumber. flags_ifs L.
    apply flags_endvalue. now apply live_val.
  - flags_ifs L.
  - unfold endNumber. flags_ifs L.
    apply flags_endvalue. now apply live_val.
  - unfold stateESign_. flags_ifs L.
  - unfold stateESign_. flags_ifs L.
  - unfold endNumber. flags_ifs L.
    apply flags_endvalue. now apply live_val.
  - flags_ifs L.
  - flags_ifs L.
  - flags_ifs L.
  - flags_ifs L.
  - flags_ifs L.
  - flags_ifs L.
  - flags_ifs L.
  - flags_ifs L.
  - flags_ifs L.
  - flags_ifs L.
  - exact F.
Qed.

Lemma flags_reset : scanner_flags reset.
Proof. repeat split; try discriminate. cbn. congruence. Qed.

Lemma flags_run data s :
  scanner_flags s -> scanner_flags (fold_left step_ data s).
Proof.
  revert s. induction data as [|c data IH]; intros s F; [exact F|].
  cbn [fold_left]. apply IH. now apply flags_step.
Qed.

Lemma isSpace_cases c :
  isSpace c = true -> c = x20 \/ c = x09 \/ c = x0d \/ c = x0a.
Proof. destruct c; try discriminate; auto. Qed.

(** White space after a value changes neither whether the input is
    accepted nor the value. *)
Lemma space_step s c :
  scanner_flags s -> isSpace c = true ->
  err (eof (step_ s c)) = None ->
  err (eof s) = None /\ val (eof (step_ s c)) = val (eof s).
Proof.
  intros F Hc.
  destruct (step s) eqn:St;
    try (assert (live s) as [Le Lr]
           by (apply flags_live; [exact F|rewrite St; discriminate
                                         |rewrite St; discriminate])).
  all: destruct s as [st et ps er it v]; cbn [step endTop err] in *; subst.
  all: try (destruct (isSpace_cases c Hc) as [->|[->|[->| ->]]];
            destruct ps as [|[[| |] f] rest];
            cbn; intros H; try discriminate; split; reflexivity).
  - unfold step_, stateEndTop_. cbn [step]. rewrite Hc. cbn [negb]. auto.
  - unfold step_. cbn [step]. auto.
Qed.

(** White space at the end of the input can be dropped. *)
Lemma trailing_space ws s :
  scanner_flags s -> Forall (fun c => isSpace c = true) ws ->
  err (eof (fold_left step_ ws s)) = None ->
  err (eof s) = None /\ val (eof (fold_left step_ ws s)) = val (eof s).
Proof.
  revert s. induction ws as [|c ws IH]; intros s F W H; [auto|].
  inversion W as [|? ? Hc W']; subst. cbn [fold_left] in *.
  destruct (IH _ (flags_step s c F) W' H) as [E1 E2].
  destruct (space_step s c F Hc E1) as [E3 E4].
  split; [exact E3|congruence].
Qed.

(** White space at the beginning of the input is skipped. *)
Lemma leading_space ws data :
  Forall (fun c => isSpace c = true) ws ->
  fold_left step_ (ws ++ data) reset = fold_left step_ data reset.
Proof.
  induction 1 as [|c ws Hc W IH]; [reflexivity|].
  cbn [app fold_left]. rewrite <- IH. f_equal.
  unfold step_, reset, stateBeginValue_. cbn [step]. now rewrite Hc.
Qed.

Lemma err_kept data s :
  scanner_flags s -> err s <> None -> err (eof (fold_left step_ data s)) <> None.
Proof.
  intros F E.
  assert (fold_left step_ data s = s) as ->.
  { induction data as [|c data IH]; [reflexivity|].
    cbn [fold_left]. replace (step_ s c) with s; [exact IH|].
    unfold step_. destruct F as [_ [_ F]]. now rewrite (F E). }
  unfold eof. destruct (err s) eqn:Es; congruence.
Qed.

(** A value begins with a plain ASCII byte. *)
Lemma first_byte c :
  isSpace c = false -> err (step_ reset c) = None -> plain_ascii c = true.
Proof.
  destruct c; intros H1 H2;
    first [discriminate H1 | discriminate H2 | reflexivity].
Qed.

Lemma isSpace_spec c :
  isSpace c = ((b2z c =? 32) || (b2z c =? 9) || (b2z c =? 13) || (b2z c =? 10)).
Proof. destruct c; reflexivity. Qed.

Lemma not_plain_arith c :
  plain_ascii c = false -> isSpace c = false ->
  128 <= b2z c \/ b2z c = 11 \/ b2z c = 12.
Proof.
  destruct c; intros H1 H2;
    first [discriminate H1 | discriminate H2 | cbn; lia].
Qed.

Lemma not_plain_begin_value s c :
  plain_ascii c = false -> isSpace c = false ->
  stateBeginValue_ s c = error_ s c "looking for beginning of value".
Proof.
  destruct c; intros H1 H2;
    first [discriminate H1 | discriminate H2 | reflexivity].
Qed.

Lemma not_plain_escape c :
  plain_ascii c = false -> isSpace c = false -> is_escape c = false.
Proof.
  destruct c; intros H1 H2;
    first [discriminate H1 | discriminate H2 | reflexivity].
Qed.

Ltac decide_ifs :=
  repeat match goal with
         | |- context [if ?b then _ else _] =>
           first [replace b with false by lia | replace b with true by lia]
         end.

(** A byte that is neither plain ASCII nor JSON white space is an error,
    unless it is read inside a string. *)
Lemma not_plain_step s c :
  scanner_flags s -> plain_ascii c = false -> isSpace c = false ->
  err (step_ s c) <> None \/
  (step (step_ s c) = stateInString /\ endTop (step_ s c) = false).
Proof.
  intros F H1 H2.
  pose proof (not_plain_arith c H1 H2) as A.
  pose proof (not_plain_begin_value s c H1 H2) as BV.
  pose proof (not_plain_escape c H1 H2) as NE.
  destruct (step s) eqn:St;
    try (assert (live s) as [Le Lr]
           by (apply flags_live; [exact F|rewrite St; discriminate
                                         |rewrite St; discriminate]));
    try (rewrite stateInStringEsc_step by exact St; rewrite NE);
    try (unfold step_; rewrite St);
    unfold stateBeginValueOrEmpty_, stateBeginStringOrEmpty_, stateBeginString_,
      stateEndTop_, state0_, endNumber, stateESign_, expect, isHex, hexval,
      strconv.isDigit;
    rewrite ?H2, ?BV; cbn [negb];
    try (left; cbn; congruence).
  all: try (unfold stateEndValue_; rewrite ?H2;
            destruct (parseState s) as [|[[| |] f] rest];
            unfold stateEndTop_; cbn [parseState set_val]; rewrite ?H2; cbn [negb]).
  all: change (b2z "r") with 114; change (b2z "u") with 117;
       change (b2z "e") with 101; change (b2z "a") with 97;
       change (b2z "l") with 108; change (b2z "s") with 115.
  all: decide_ifs; rewrite ?BV.
  all: try (left; cbn; congruence).
  all: try (destruct A as [A|[A|A]];
            [replace (b2z c <? 32) with false by lia; right; split; [reflexivity|exact Le]
            |replace (b2z c <? 32) with true by lia; left; cbn; congruence
            |replace (b2z c <? 32) with true by lia; left; cbn; congruence]).
  all: try (left; apply (proj2 F); exact St).
  all: destruct (parseState s) as [|[[| |] ?] ?]; left; cbn; congruence.
Qed.

Lemma instring_eof t :
  step t = stateInString -> endTop t = false -> err (eof t) <> None.
Proof.
  destruct t as [st et ps er it v]. cbn [step endTop]. intros -> ->.
  destruct er; cbn; congruence.
Qed.

(** The last byte of a value is a plain ASCII byte. *)
Lemma last_byte s c :
  scanner_flags s -> isSpace c = false ->
  err (eof (step_ s c)) = None -> plain_ascii c = true.
Proof.
  intros F H2 E. destruct (plain_ascii c) eqn:H1; [reflexivity|].
  exfalso.
  destruct (not_plain_step s c F H1 H2) as [N|[N1 N2]].
  - apply (err_kept [] _ (flags_step s c F) N). exact E.
  - exact (instring_eof _ N1 N2 E).
Qed.

Lemma split_prefix {A} (p : A -> bool) (l : list A) :
  exists a b, l = a ++ b /\ Forall (fun c => p c = true) a /\
              (b = [] \/ exists c r, b = c :: r /\ p c = false).
Proof.
  induction l as [|x l (a & b & E & Fa & Hb)].
  - exists [], []. auto.
  - destruct (p x) eqn:Px.
    + exists (x :: a), b. subst l. repeat split; auto.
    + exists [], (x :: l). repeat split; auto. right. eauto.
Qed.

(** Any input is JSON white space, a core that neither begins nor ends
    with JSON white space, and JSON white space. *)
Lemma strip_spaces (data : bytes) :
  exists ws1 core ws2,
    data = ws1 ++ core ++ ws2 /\ json_ws ws1 /\ json_ws ws2 /\
    (core = [] \/
     (exists c rest, core = c :: rest /\ isSpace c = false) /\
     (exists pre l, core = pre ++ [l] /\ isSpace l = false)).
Proof.
  destruct (split_prefix isSpace data) as (ws1 & rest & E1 & W1 & H1).
  destruct (split_prefix isSpace (rev rest)) as (a & b & E2 & W2 & H2).
  assert (rest = rev b ++ rev a) as E3.
  { rewrite <- rev_app_distr, <- E2. now rewrite rev_involutive. }
  exists ws1, (rev b), (rev a). repeat split; auto.
  - now rewrite <- E3.
  - apply Forall_rev. exact W2.
  - destruct H2 as [->|(l & r & -> & Pl)]; [now left|right].
    split; [|exists (rev r), l; split; [reflexivity|exact Pl]].
    cbn [rev] in *.
    destruct H1 as [->|(c & rest' & -> & Pc)].
    + destruct (rev r); discriminate.
    + destruct (rev r) as [|c' r'] eqn:Er; cbn [app] in E3;
        injection E3 as E4 _; subst; cbn [app]; eauto.
Qed.

Lemma DecodeRune_ascii c x :
  b2z c < 128 -> utf8.DecodeRune (c :: x) = (b2z c, 1%nat).
Proof.
  intros H. unfold utf8.DecodeRune, utf8.first.
  now replace (b2z c <? 128) with true by lia.
Qed.

Lemma DecodeLastRune_ascii c x :
  b2z c < 128 -> utf8.DecodeLastRune (x ++ [c]) = (b2z c, 1%nat).
Proof.
  intros H. unfold utf8.DecodeLastRune, len.
  rewrite length_app. cbn [Datatypes.length].
  replace (Z.of_nat (Datatypes.length x + 1) =? 0) with false
    by (symmetry; apply Z.eqb_neq; lia).
  replace (Z.to_nat (Z.of_nat (Datatypes.length x + 1) - 1))
    with (Datatypes.length x) by lia.
  rewrite app_nth2, Nat.sub_diag by lia. cbn [nth].
  unfold utf8.RuneSelf. now replace (b2z c <? 128) with true by lia.
Qed.

Lemma isSpace_ascii c :
  isSpace c = true -> b2z c < 128 /\ unicode.IsSpace (b2z c) = true.
Proof. destruct c; try discriminate; intros _; split; reflexivity. Qed.

Lemma plain_ascii_spec c :
  plain_ascii c = true -> b2z c < 128 /\ unicode.IsSpace (b2z c) = false.
Proof.
  unfold plain_ascii. intros H. apply andb_prop in H. destruct H as [H1 H2].
  split; [lia|]. now destruct (unicode.IsSpace (b2z c)).
Qed.

Lemma TrimLeft_json ws c rest :
  json_ws ws -> plain_ascii c = true ->
  Bytes.TrimLeftFunc (ws ++ c :: rest) unicode.IsSpace = c :: rest.
Proof.
  intros W Pc. induction W as [|x ws Hx W IH].
  - pose proof (TrimLeft_step (c :: rest) ltac:(discriminate)) as St.
    destruct (plain_ascii_spec c Pc) as [A S].
    rewrite (DecodeRune_ascii c rest A), S in St. exact St.
  - pose proof (TrimLeft_step ((x :: ws) ++ c :: rest) ltac:(discriminate)) as St.
    destruct (isSpace_ascii x Hx) as [A S]. cbn [app] in *.
    rewrite (DecodeRune_ascii x _ A), S in St. cbn [skipn] in St.
    now rewrite St.
Qed.

Lemma TrimRight_json pre l ws :
  json_ws ws -> plain_ascii l = true ->
  Bytes.TrimRightFunc ((pre ++ [l]) ++ ws) unicode.IsSpace = pre ++ [l].
Proof.
  intros W Pl. unfold Bytes.TrimRightFunc.
  induction ws as [|x ws IH] using rev_ind.
  - rewrite app_nil_r.
    pose proof (TrimRight_step (rev (pre ++ [l]))) as St.
    rewrite rev_involutive in St.
    destruct (plain_ascii_spec l Pl) as [A S].
    rewrite (DecodeLastRune_ascii l pre A), S in St.
    rewrite St; [apply rev_involutive|].
    rewrite rev_app_distr. discriminate.
  - apply Forall_app in W. destruct W as [W Wx]. inversion Wx as [|? ? Hx _]; subst.
    pose proof (TrimRight_step (rev ((pre ++ [l]) ++ ws ++ [x]))) as St.
    rewrite rev_involutive in St.
    destruct (isSpace_ascii x Hx) as [A S].
    rewrite app_assoc in St.
    rewrite (DecodeLastRune_ascii x _ A), S in St.
    rewrite app_assoc. rewrite St.
    + rewrite rev_app_distr. cbn [rev app skipn]. apply IH. exact W.
    + rewrite rev_app_distr. discriminate.
Qed.

(** [TrimSpace] on such an input gives the core. *)
Lemma TrimSpace_json ws1 c rest pre l ws2 :
  json_ws ws1 -> json_ws ws2 ->
  c :: rest = pre ++ [l] ->
  plain_ascii c = true -> plain_ascii l = true ->
  Bytes.TrimSpace (ws1 ++ (c :: rest) ++ ws2) = c :: rest.
Proof.
  intros W1 W2 E Pc Pl. unfold Bytes.TrimSpace, Bytes.TrimFunc.
  cbn [app]. rewrite (TrimLeft_json ws1 c (rest ++ ws2) W1 Pc).
  change (c :: rest ++ ws2) with ((c :: rest) ++ ws2). rewrite E.
  now apply TrimRight_json.
Qed.

(** The body of a valid input, without the white space around it, is
    what [TrimSpace] returns; it is valid and has the same value. *)
Lemma valid_trimmed data :
  Valid data = true ->
  Valid (Bytes.TrimSpace data) = true /\
  val (checkValid (Bytes.TrimSpace data)) = val (checkValid data) /\
  exists ws1 ws2,
    data = ws1 ++ Bytes.TrimSpace data ++ ws2 /\ json_ws ws1 /\ json_ws ws2.
Proof.
  intros V.
  assert (err (checkValid data) = None) as E.
  { unfold Valid in V. destruct (err (checkValid data)); [discriminate|reflexivity]. }
  destruct (strip_spaces data) as (ws1 & core & ws2 & D & W1 & W2 & C).
  unfold checkValid in E.
  rewrite D, (leading_space ws1 _ W1), fold_left_app in E.
  pose proof (flags_run core reset flags_reset) as Fc.
  destruct (trailing_space ws2 _ Fc W2 E) as [Ec Vc].
  destruct C as [->|[(c & rest & -> & Sc) (pre & l & El & Sl)]].
  { cbn in Ec. discriminate. }
  assert (plain_ascii c = true) as Pc.
  { apply first_byte; [exact Sc|].
    destruct (err (step_ reset c)) eqn:E1; [|reflexivity].
    exfalso. cbn [fold_left] in Ec.
    apply (err_kept rest _ (flags_step reset c flags_reset)); [congruence|exact Ec]. }
  assert (plain_ascii l = true) as Pl.
  { rewrite El, fold_left_app in Ec. cbn [fold_left] in Ec.
    exact (last_byte _ l (flags_run pre reset flags_reset) Sl Ec). }
  assert (Bytes.TrimSpace data = c :: rest) as T.
  { rewrite D. now apply (TrimSpace_json ws1 c rest pre l ws2). }
  rewrite T. repeat split.
  - unfold Valid, checkValid. now rewrite Ec.
  - unfold checkValid at 2. rewrite D, (leading_space ws1 _ W1), fold_left_app.
    symmetry. exact Vc.
  - exists ws1, ws2. auto.
Qed.

(** Decoding the trimmed body is decoding the body, when the body is
    valid JSON. *)
Lemma json_Unmarshal_trimmed data v :
  Valid data = true ->
  json_Unmarshal (Bytes.TrimSpace data) v = json_Unmarshal data v.
Proof.
  intros V. destruct (valid_trimmed data V) as (V' & E & _).
  rewrite (json_Unmarshal_valid _ v V), (json_Unmarshal_valid _ v V').
  now rewrite E.
Qed.

Lemma json_Unmarshal_ok_valid data v mb :
  json_Unmarshal data v = (mb, None) -> Valid data = true.
Proof.
  unfold json_Unmarshal, Valid.
  destruct (err (checkValid data)); [discriminate|reflexivity].
Qed.

End Document.

(** ** The keys and the fields of the envelope *)

Section Envelope.
Import decode.

Lemma caseMask_cases tb :
  (caseMask tb = b2z tb /\ Z.land (b2z tb) 32 = 0) \/
  (caseMask tb = b2z tb - 32 /\ Z.land (b2z tb) 32 = 32).
Proof. destruct tb; vm_compute; auto. Qed.

Lemma land32_range tb :
  (Z.land (b2z tb) 32 = 0 ->
   b2z tb < 32 \/ 64 <= b2z tb < 96 \/ 128 <= b2z tb < 160 \/ 192 <= b2z tb < 224) /\
  (Z.land (b2z tb) 32 = 32 ->
   32 <= b2z tb < 64 \/ 96 <= b2z tb < 128 \/ 160 <= b2z tb < 192 \/ 224 <= b2z tb).
Proof.
  destruct tb; unfold b2z; cbn [Byte.to_N Z.of_N]; split; intros H;
    first [vm_compute in H; discriminate H | lia].
Qed.

Lemma ascii_lower_b2z tb :
  b2z (ascii_lower tb)
  = if (0x41 <=? b2z tb) && (b2z tb <=? 0x5A) then b2z tb + 32 else b2z tb.
Proof. destruct tb; reflexivity. Qed.

(** A small letter matches the two bytes that are that letter. *)
Lemma fold_small_letter sb tb :
  0x61 <= b2z sb <= 0x7A ->
  (caseMask sb =? caseMask tb) = true <-> ascii_lower tb = sb.
Proof.
  intros Hs.
  destruct (caseMask_cases sb) as [[Cs Ls]|[Cs Ls]];
    destruct (land32_range sb) as [R0 R1];
    [specialize (R0 Ls); lia|clear R0; specialize (R1 Ls)].
  pose proof (ascii_lower_b2z tb) as Al.
  split.
  - intros E. apply b2z_inj. rewrite Al.
    destruct (caseMask_cases tb) as [[Ct Lt]|[Ct Lt]];
      destruct (land32_range tb) as [T0 T1];
      [specialize (T0 Lt)|specialize (T1 Lt)];
      destruct ((65 <=? b2z tb) && (b2z tb <=? 90)) eqn:U; lia.
  - intros <-. rewrite Al in *.
    destruct (caseMask_cases tb) as [[Ct Lt]|[Ct Lt]];
      destruct (land32_range tb) as [T0 T1];
      [specialize (T0 Lt)|specialize (T1 Lt)];
      destruct ((65 <=? b2z tb) && (b2z tb <=? 90)) eqn:U; lia.
Qed.

Lemma simpleLetterEqualFold_spec s t :
  Forall (fun sb => 0x61 <= b2z sb <= 0x7A) s ->
  simpleLetterEqualFold s t = true <-> map ascii_lower t = s.
Proof.
  intros H. revert t. induction H as [|sb s Hs H IH]; intros [|tb t];
    cbn [simpleLetterEqualFold map]; try (split; congruence).
  rewrite andb_true_iff, (fold_small_letter sb tb Hs), IH.
  split; [intros [-> ->]; reflexivity | intros [= -> ->]; auto].
Qed.

Lemma fold_byte sb tb :
  0x61 <= b2z sb <= 0x7A \/ isLetter sb = false ->
  (if b2z sb =? b2z tb then true
   else if isLetter sb then caseMask sb =? caseMask tb else false) = true
  <-> ascii_lower tb = sb.
Proof.
  intros [Hs|Hn].
  - replace (isLetter sb) with true by (unfold isLetter; lia).
    destruct (b2z sb =? b2z tb) eqn:E.
    + split; [intros _|reflexivity].
      apply b2z_inj. rewrite ascii_lower_b2z.
      replace ((65 <=? b2z tb) && (b2z tb <=? 90)) with false by lia. lia.
    + now apply fold_small_letter.
  - rewrite Hn. unfold isLetter in Hn.
    destruct (b2z sb =? b2z tb) eqn:E.
    + split; [intros _|reflexivity].
      apply b2z_inj. rewrite ascii_lower_b2z.
      replace ((65 <=? b2z tb) && (b2z tb <=? 90)) with false by lia. lia.
    + split; [discriminate|]. intros <-. rewrite ascii_lower_b2z in *.
      destruct ((65 <=? b2z tb) && (b2z tb <=? 90)) eqn:U; lia.
Qed.

Lemma asciiEqualFold_spec s t :
  Forall (fun sb => 0x61 <= b2z sb <= 0x7A \/ isLetter sb = false) s ->
  asciiEqualFold s t = true <-> map ascii_lower t = s.
Proof.
  intros H. revert t. induction H as [|sb s Hs H IH]; intros [|tb t];
    cbn [asciiEqualFold map]; try (split; congruence).
  rewrite andb_true_iff, (fold_byte sb tb Hs), IH.
  split; [intros [-> ->]; reflexivity | intros [= -> ->]; auto].
Qed.

Lemma equalFold_spec f k : equalFold f k = true <-> lower k = B (name f).
Proof.
  unfold lower. destruct f; unfold equalFold.
  - apply asciiEqualFold_spec. cbn [name B bytes_of_string].
    repeat (apply Forall_cons;
            [first [left; cbn; lia | right; reflexivity]|]).
    apply Forall_nil.
  - apply simpleLetterEqualFold_spec.
    repeat (apply Forall_cons; [cbn; lia|]). apply Forall_nil.
  - apply simpleLetterEqualFold_spec.
    repeat (apply Forall_cons; [cbn; lia|]). apply Forall_nil.
Qed.

Lemma name_inj f g : B (name f) = B (name g) -> f = g.
Proof. destruct f, g; try reflexivity; discriminate. Qed.

Lemma lower_name f : lower (name f) = B (name f).
Proof. destruct f; reflexivity. Qed.

(** X11. A key of the body selects a field of [MessageBody] exactly when,
    with its ASCII capital letters made small, it is the name in the
    [json] tag of the field: the keys are matched without regard to
    case, and to nothing else. *)
Theorem lookup_case_insensitive k f :
  lookup k = Some f <-> lower k = B (name f).
Proof.
  unfold lookup, fields.
  destruct (find (fun f0 => String.eqb (name f0) k) _) as [g|] eqn:Fx.
  - apply find_some in Fx. destruct Fx as [_ Eg].
    apply String.eqb_eq in Eg. subst k. rewrite lower_name.
    split; [intros [= ->]; reflexivity | intros E; f_equal; now apply name_inj].
  - clear Fx. cbn [find].
    pose proof (equalFold_spec FInboxId k) as S1.
    pose proof (equalFold_spec FOutput k) as S2.
    pose proof (equalFold_spec FRunner k) as S3.
    destruct (equalFold FInboxId k);
      [|destruct (equalFold FOutput k); [|destruct (equalFold FRunner k)]].
    + split; [intros [= <-]; now apply S1|].
      intros E. f_equal. apply name_inj. rewrite <- E. symmetry. now apply S1.
    + split; [intros [= <-]; now apply S2|].
      intros E. f_equal. apply name_inj. rewrite <- E. symmetry. now apply S2.
    + split; [intros [= <-]; now apply S3|].
      intros E. f_equal. apply name_inj. rewrite <- E. symmetry. now apply S3.
    + split; [discriminate|]. intros E. destruct f.
      * apply S1 in E. discriminate.
      * apply S2 in E. discriminate.
      * apply S3 in E. discriminate.
Qed.

Lemma field_eqb_refl f : field_eqb f f = true.
Proof. destruct f; reflexivity. Qed.

Lemma field_eqb_eq f g : field_eqb f g = true -> f = g.
Proof. destruct f, g; try reflexivity; discriminate. Qed.

(** What a member does to the runner and the inbox id. *)
Lemma member_Runner_string d kv :
  Runner (fst (member d kv))
  = if string_for FRunner kv
    then match snd kv with json.JString s => s | _ => Runner (fst d) end
    else Runner (fst d).
Proof.
  destruct d as [v saved], kv as [k x]. unfold member, string_for.
  cbn [fst snd]. destruct (lookup k) as [[| |]|]; cbn [field_eqb];
    unfold store_string, store_interface;
    destruct x; reflexivity.
Qed.

Lemma member_InboxId_string d kv :
  InboxId (fst (member d kv))
  = if string_for FInboxId kv
    then match snd kv with json.JString s => s | _ => InboxId (fst d) end
    else InboxId (fst d).
Proof.
  destruct d as [v saved], kv as [k x]. unfold member, string_for.
  cbn [fst snd]. destruct (lookup k) as [[| |]|]; cbn [field_eqb];
    unfold store_string, store_interface;
    destruct x; reflexivity.
Qed.

Lemma string_for_string f kv :
  string_for f kv = true -> exists s, snd kv = json.JString s.
Proof.
  unfold string_for. destruct (lookup (fst kv)); [|discriminate].
  destruct (snd kv); try discriminate. eauto.
Qed.

Lemma object_Runner ms v :
  Runner (fst (object ms v))
  = match last_string FRunner ms with Some s => s | None => Runner v end.
Proof.
  unfold object, last_string.
  induction ms as [|kv ms IH] using rev_ind; [reflexivity|].
  rewrite fold_left_app, rev_app_distr. cbn [fold_left rev app find].
  rewrite member_Runner_string.
  destruct (string_for FRunner kv) eqn:S.
  - destruct (string_for_string _ _ S) as [s E]. destruct kv as [k x].
    cbn [snd] in *. subst x. reflexivity.
  - exact IH.
Qed.

Lemma object_InboxId ms v :
  InboxId (fst (object ms v))
  = match last_string FInboxId ms with Some s => s | None => InboxId v end.
Proof.
  unfold object, last_string.
  induction ms as [|kv ms IH] using rev_ind; [reflexivity|].
  rewrite fold_left_app, rev_app_distr. cbn [fold_left rev app find].
  rewrite member_InboxId_string.
  destruct (string_for FInboxId kv) eqn:S.
  - destruct (string_for_string _ _ S) as [s E]. destruct kv as [k x].
    cbn [snd] in *. subst x. reflexivity.
  - exact IH.
Qed.

(** The runner and the inbox id decoded from a valid body are the
    strings of the last members that are strings for them, and empty
    when there is none, whether or not an error is reported. *)
Lemma envelope_fields data :
  json.Valid data = true ->
  let mb := fst (json_Unmarshal data zero_MessageBody) in
  let ms := members_of (json.val (json.checkValid data)) in
  Runner mb = field_string FRunner ms /\
  InboxId mb = field_string FInboxId ms.
Proof.
  intros V. cbn zeta. unfold field_string. rewrite (json_Unmarshal_valid _ _ V).
  destruct (json.val (json.checkValid data)); cbn [value members_of fst];
    try (split; reflexivity).
  split; [apply object_Runner | apply object_InboxId].
Qed.

(** Decoding the envelope succeeds exactly on the valid inputs whose
    value is decodable. *)
Lemma json_Unmarshal_ok_iff data v :
  snd (json_Unmarshal data v) = None <->
  json.Valid data = true /\ decodable (json.val (json.checkValid data)).
Proof.
  unfold json_Unmarshal, json.Valid.
  destruct (json.err (json.checkValid data)) as [e|].
  - cbn [snd]. split; [discriminate|intros [? _]; discriminate].
  - rewrite value_ok_iff. tauto.
Qed.

End Envelope.

(** ** Further properties of the handler *)

(** The path an invocation takes: the connection fails, or the decoding
    fails, or the publish is made and fails or succeeds. *)
Lemma Handle_paths nats req :
  (exists e, nats_Connect nats url creds = inr e) \/
  (exists nc mb je,
     nats_Connect nats url creds = inl nc /\
     json_Unmarshal (req_Body req) zero_MessageBody = (mb, Some je)) \/
  (exists nc mb,
     nats_Connect nats url creds = inl nc /\
     json_Unmarshal (req_Body req) zero_MessageBody = (mb, None) /\
     exists r,
       conn_PublishRequest nc (Runner mb +++ ".response") (InboxId mb)
         (bytes_of_string (message (req_Body req))) = r).
Proof.
  destruct (nats_Connect nats url creds) as [nc|e]; [|eauto].
  destruct (json_Unmarshal (req_Body req) zero_MessageBody) as [mb [je|]];
    [right; left; eauto|].
  right. right. eauto 8.
Qed.

Ltac by_path nats req :=
  unfold trace, response, returned_error;
  destruct (Handle_paths nats req)
    as [[e Hc]|[(nc & mb & je & Hc & Hu)|(nc & mb & Hc & Hu & [[e|] Hp])]];
  [ rewrite (run_connect_fails _ _ _ Hc)
  | rewrite (run_decode_fails _ _ _ _ _ Hc Hu)
  | rewrite (run_publish_fails _ _ _ _ _ Hc Hu Hp)
  | rewrite (run_success _ _ _ _ Hc Hu Hp) ];
  cbn [fst snd StatusCode Body].

(** X1. Every invocation starts in the same way: it prints the body it
    received, then dials the broker at the fixed address with the fixed
    credentials file; it dials once, whatever happens later. *)
Theorem Handle_connects_once nats req :
  exists rest,
    trace nats req
    = EvPrintln ("Received body: " +++ string_of_bytes (req_Body req))
      :: EvConnect "tls://connect.ngs.global" "/var/openfaas/secrets/nts-tkn"
      :: rest /\
    existsb is_connect rest = false.
Proof.
  by_path nats req; cbn [prologue app]; eexists; split; reflexivity.
Qed.

(** X6. Once connected, the handler decodes the body it received (not
    the trimmed message) exactly once, before anything is published, and
    closes the connection exactly once, as the last thing it does.  When
    the connection fails it neither decodes nor closes. *)
Theorem decode_once_when_connected nats req :
  match nats_Connect nats url creds with
  | inl _ =>
    exists t1 t2,
      trace nats req
      = prologue (req_Body req) ++ t1 ++ EvUnmarshal (req_Body req) :: t2
        ++ [EvClose] /\
      publishes t1 = [] /\
      existsb is_unmarshal (t1 ++ t2) = false /\
      existsb is_close (t1 ++ t2) = false
  | inr _ =>
    existsb is_unmarshal (trace nats req) = false /\
    existsb is_close (trace nats req) = false
  end.
Proof.
  by_path nats req; rewrite Hc.
  - split; reflexivity.
  - exists [EvLogPrintf "request body: %s" [ArgBytes (req_Body req)]],
      [EvLogPrintf "Error unmarshalling request body: %s" [ArgError je]].
    repeat split.
  - eexists [_], [_; _; _]. repeat split.
  - eexists [_], [_; _]. repeat split.
Qed.

(** What a publish is made of. *)
Lemma publish_routing nats req subj reply data :
  In (subj, reply, data) (publishes (trace nats req)) ->
  exists mb,
    json_Unmarshal (req_Body req) zero_MessageBody = (mb, None) /\
    subj = Runner mb +++ ".response" /\
    reply = InboxId mb.
Proof.
  intros Hin.
  destruct (Handle_paths nats req)
    as [[e Hc]|[(nc & mb & je & Hc & Hu)|(nc & mb & Hc & Hu & _)]].
  - rewrite (publishes_connect_fails _ _ _ Hc) in Hin. contradiction.
  - rewrite (publishes_decode_fails _ _ _ _ _ Hc Hu) in Hin. contradiction.
  - rewrite (publishes_decoded _ _ _ _ Hc Hu) in Hin.
    destruct Hin as [[= <- <- <-]|[]]. eauto.
Qed.

(** The payload of a publish is the trimmed body, and the body is valid
    JSON. *)
Lemma publish_payload nats req subj reply data :
  In (subj, reply, data) (publishes (trace nats req)) ->
  data = Bytes.TrimSpace (req_Body req) /\
  json.Valid (req_Body req) = true.
Proof.
  intros Hin.
  destruct (Handle_paths nats req)
    as [[e Hc]|[(nc & mb & je & Hc & Hu)|(nc & mb & Hc & Hu & _)]].
  - rewrite (publishes_connect_fails _ _ _ Hc) in Hin. contradiction.
  - rewrite (publishes_decode_fails _ _ _ _ _ Hc Hu) in Hin. contradiction.
  - rewrite (publishes_decoded _ _ _ _ Hc Hu) in Hin.
    destruct Hin as [[= <- <- <-]|[]]. split.
    + apply payload_nonempty. exact (json_Unmarshal_ok_nonempty _ _ _ Hu).
    + exact (json_Unmarshal_ok_valid _ _ _ Hu).
Qed.

(** X2. Whatever is published comes from the envelope: a publish
    happens only after a successful connection and a successful
    decoding; its subject is the decoded runner followed by ".response",
    its reply address the decoded inbox id, its payload the trimmed
    body; and it is the only publish of the invocation. *)
Theorem publish_comes_from_envelope nats req subj reply data :
  In (subj, reply, data) (publishes (trace nats req)) ->
  exists nc mb,
    nats_Connect nats url creds = inl nc /\
    json_Unmarshal (req_Body req) zero_MessageBody = (mb, None) /\
    subj = Runner mb +++ ".response" /\
    reply = InboxId mb /\
    data = Bytes.TrimSpace (req_Body req) /\
    publishes (trace nats req) = [(subj, reply, data)].
Proof.
  intros Hin.
  destruct (Handle_paths nats req)
    as [[e Hc]|[(nc & mb & je & Hc & Hu)|(nc & mb & Hc & Hu & _)]].
  - rewrite (publishes_connect_fails _ _ _ Hc) in Hin. contradiction.
  - rewrite (publishes_decode_fails _ _ _ _ _ Hc Hu) in Hin. contradiction.
  - rewrite (publishes_decoded _ _ _ _ Hc Hu) in *.
    destruct Hin as [[= <- <- <-]|[]].
    exists nc, mb. repeat split; auto.
    + apply payload_nonempty. exact (json_Unmarshal_ok_nonempty _ _ _ Hu).
Qed.

Lemma publish_comes_from_envelope_witness :
  In ("workerA.response", "abc123", Bytes.TrimSpace envelope_abc123)
     (publishes (trace nats_ok (mkRequest envelope_abc123))) /\
  exists nc mb,
    nats_Connect nats_ok url creds = inl nc /\
    json_Unmarshal (req_Body (mkRequest envelope_abc123)) zero_MessageBody
    = (mb, None) /\
    "workerA.response" = Runner mb +++ ".response" /\
    "abc123" = InboxId mb /\
    Bytes.TrimSpace envelope_abc123
    = Bytes.TrimSpace (req_Body (mkRequest envelope_abc123)) /\
    publishes (trace nats_ok (mkRequest envelope_abc123))
    = [("workerA.response", "abc123", Bytes.TrimSpace envelope_abc123)].
Proof.
  split; [vm_compute; left; reflexivity|].
  apply (publish_comes_from_envelope nats_ok (mkRequest envelope_abc123)).
  vm_compute. left. reflexivity.
Defined.

(** X3. The status is 200 or 500, and it is 200 exactly when a message
    was published and no error is returned. *)
Theorem status_ok_iff_published nats req :
  (StatusCode (response nats req) = StatusOK \/
   StatusCode (response nats req) = StatusInternalServerError) /\
  (StatusCode (response nats req) = StatusOK <->
   returned_error nats req = None /\ publishes (trace nats req) <> []).
Proof.
  by_path nats req; unfold StatusOK, StatusInternalServerError;
    (split; [auto|]); split; try discriminate;
    try (intros [? ?]; congruence).
  all: try (intros [_ H]; exfalso; apply H; reflexivity).
  all: try (intros _; split; [reflexivity|discriminate]).
Qed.

(** X4. An error the handler returns is always reported: the status is
    500, the body of the response contains the text of the error, and
    the error is the one [nats.Connect] gave or the one the single
    [PublishRequest] of the invocation gave. *)
Theorem returned_error_is_reported nats req e :
  returned_error nats req = Some e ->
  StatusCode (response nats req) = StatusInternalServerError /\
  contains (string_of_bytes (Body (response nats req))) (Error e) /\
  (nats_Connect nats url creds = inr e \/
   exists nc subj reply data,
     nats_Connect nats url creds = inl nc /\
     publishes (trace nats req) = [(subj, reply, data)] /\
     conn_PublishRequest nc subj reply data = Some e).
Proof.
  revert e. by_path nats req; intros e' [= <-].
  - repeat split.
    + unfold string_of_bytes, bytes_of_string.
      rewrite string_of_list_byte_of_string. apply contains_suffix.
    + now left.
  - repeat split.
    + unfold string_of_bytes, bytes_of_string.
      rewrite string_of_list_byte_of_string. apply contains_suffix.
    + right. exists nc. do 3 eexists. repeat split; [exact Hc|exact Hp].
Qed.

Lemma returned_error_is_reported_witness :
  returned_error (nats_nopub "nats: timeout") (mkRequest envelope_abc123)
  = Some (NatsError "nats: timeout") /\
  StatusCode (response (nats_nopub "nats: timeout") (mkRequest envelope_abc123))
  = StatusInternalServerError /\
  contains
    (string_of_bytes
       (Body (response (nats_nopub "nats: timeout") (mkRequest envelope_abc123))))
    (Error (NatsError "nats: timeout")) /\
  (nats_Connect (nats_nopub "nats: timeout") url creds
   = inr (NatsError "nats: timeout") \/
   exists nc subj reply data,
     nats_Connect (nats_nopub "nats: timeout") url creds = inl nc /\
     publishes (trace (nats_nopub "nats: timeout") (mkRequest envelope_abc123))
     = [(subj, reply, data)] /\
     conn_PublishRequest nc subj reply data = Some (NatsError "nats: timeout")).
Proof.
  split; [vm_compute; reflexivity|].
  apply (returned_error_is_reported (nats_nopub "nats: timeout")
           (mkRequest envelope_abc123)).
  vm_compute. reflexivity.
Defined.

(** X5. A 500 together with a nil error is the mark of a decoding
    failure: it is returned exactly when the connection succeeded and
    the body did not decode. *)
Theorem nil_error_failure_is_decode_failure nats req :
  returned_error nats req = None /\
  StatusCode (response nats req) = StatusInternalServerError <->
  exists nc, nats_Connect nats url creds = inl nc /\
             snd (json_Unmarshal (req_Body req) zero_MessageBody) <> None.
Proof.
  by_path nats req; unfold StatusOK, StatusInternalServerError; split.
  all: try (intros [? ?]; discriminate).
  all: try (intros (nc' & Hc' & Hu'); congruence).
  all: try (intros (nc' & Hc' & Hu'); rewrite Hu in Hu'; cbn in Hu'; congruence).
  - intros _. exists nc. rewrite Hu. split; [exact Hc|discriminate].
  - auto.
Qed.

(** [TrimSpace] returns a slice it leaves alone. *)
Lemma TrimSpace_idempotent s :
  Bytes.TrimSpace (Bytes.TrimSpace s) = Bytes.TrimSpace s.
Proof.
  destruct (TrimSpace_spec s) as (pre & post & _ & _ & _ & L & R).
  remember (Bytes.TrimSpace s) as t eqn:Et. clear Et s pre post.
  destruct t as [|c t]; [reflexivity|].
  unfold Bytes.TrimSpace, Bytes.TrimFunc.
  assert (Bytes.TrimLeftFunc (c :: t) unicode.IsSpace = c :: t) as ->.
  { pose proof (TrimLeft_step (c :: t) ltac:(discriminate)) as H.
    destruct (utf8.DecodeRune (c :: t)) as [r n]. cbn [fst] in L.
    now rewrite L in H. }
  unfold Bytes.TrimRightFunc.
  assert (rev (c :: t) <> []) as Hne.
  { intros H. apply (f_equal (@List.length _)) in H.
    rewrite length_rev in H. discriminate. }
  pose proof (TrimRight_step (rev (c :: t)) Hne) as H.
  rewrite rev_involutive in H.
  destruct (utf8.DecodeLastRune (c :: t)) as [r n]. cbn [fst] in R.
  rewrite R in H. rewrite H. apply rev_involutive.
Qed.

(** X7. A published payload is a JSON document of its own: it is valid
    JSON, it has the value of the body, and the body is the payload
    between two runs of JSON white space (space, tab, carriage return,
    line feed). *)
Theorem published_payload_is_the_document nats req subj reply data :
  In (subj, reply, data) (publishes (trace nats req)) ->
  json.Valid data = true /\
  json.val (json.checkValid data) = json.val (json.checkValid (req_Body req)) /\
  exists ws1 ws2,
    req_Body req = ws1 ++ data ++ ws2 /\ json_ws ws1 /\ json_ws ws2.
Proof.
  intros Hin.
  destruct (publish_payload _ _ _ _ _ Hin) as [-> V].
  now apply valid_trimmed.
Qed.

Lemma published_payload_is_the_document_witness :
  In ("workerA.response", "abc123", Bytes.TrimSpace envelope_abc123)
     (publishes (trace nats_ok (mkRequest envelope_abc123))) /\
  json.Valid (Bytes.TrimSpace envelope_abc123) = true /\
  json.val (json.checkValid (Bytes.TrimSpace envelope_abc123))
  = json.val (json.checkValid (req_Body (mkRequest envelope_abc123))) /\
  exists ws1 ws2,
    req_Body (mkRequest envelope_abc123)
    = ws1 ++ Bytes.TrimSpace envelope_abc123 ++ ws2 /\
    json_ws ws1 /\ json_ws ws2.
Proof.
  split; [vm_compute; left; reflexivity|].
  apply (published_payload_is_the_document nats_ok (mkRequest envelope_abc123)
           "workerA.response" "abc123").
  vm_compute. left. reflexivity.
Defined.

(** X8. The text "default message" that the handler starts from is never
    published, whatever the body and the broker. *)
Theorem default_message_never_published nats req :
  Forall (fun p => snd p <> B "default message") (publishes (trace nats req)).
Proof.
  apply Forall_forall. intros [[subj reply] data] Hin. cbn [snd]. intros ->.
  destruct (publish_payload _ _ _ _ _ Hin) as [E V].
  destruct (valid_trimmed _ V) as [V' _]. rewrite <- E in V'.
  vm_compute in V'. discriminate.
Qed.

(** X9. Relaying is idempotent: a payload that was published, sent as the
    body of another invocation that connects, is published again as it
    is, on the same subject and with the same reply address. *)
Theorem published_payload_resubmitted nats req subj reply data nats' nc' :
  In (subj, reply, data) (publishes (trace nats req)) ->
  nats_Connect nats' url creds = inl nc' ->
  publishes (trace nats' (mkRequest data)) = [(subj, reply, data)].
Proof.
  intros Hin Hc'.
  destruct (publish_routing _ _ _ _ _ Hin) as (mb & Hu & -> & ->).
  destruct (publish_payload _ _ _ _ _ Hin) as [-> V].
  assert (json_Unmarshal (req_Body (mkRequest (Bytes.TrimSpace (req_Body req))))
            zero_MessageBody = (mb, None)) as Hu'.
  { cbn [req_Body]. now rewrite json_Unmarshal_trimmed. }
  rewrite (publishes_decoded _ _ _ _ Hc' Hu'). cbn [req_Body].
  rewrite payload_nonempty.
  - now rewrite TrimSpace_idempotent.
  - exact (json_Unmarshal_ok_nonempty _ _ _ Hu').
Qed.

Lemma published_payload_resubmitted_witness :
  In ("workerA.response", "abc123", Bytes.TrimSpace envelope_abc123)
     (publishes (trace nats_ok (mkRequest envelope_abc123))) /\
  nats_Connect (nats_nopub "nats: timeout") url creds
  = inl (mkConn (fun _ _ _ => Some (NatsError "nats: timeout"))) /\
  publishes (trace (nats_nopub "nats: timeout")
                   (mkRequest (Bytes.TrimSpace envelope_abc123)))
  = [("workerA.response", "abc123", Bytes.TrimSpace envelope_abc123)].
Proof.
  split; [vm_compute; left; reflexivity|].
  split; [reflexivity|].
  apply (published_payload_resubmitted nats_ok (mkRequest envelope_abc123)
           "workerA.response" "abc123" (Bytes.TrimSpace envelope_abc123)
           (nats_nopub "nats: timeout")
           (mkConn (fun _ _ _ => Some (NatsError "nats: timeout")))).
  - vm_compute. left. reflexivity.
  - reflexivity.
Defined.

(** X10. A message is published exactly when the connection succeeds
    and the body is valid JSON whose value is [null] or an object of
    members the envelope can hold. *)
Theorem publishes_iff_decodable nats req :
  publishes (trace nats req) <> [] <->
  (exists nc, nats_Connect nats url creds = inl nc) /\
  json.Valid (req_Body req) = true /\
  decodable (json.val (json.checkValid (req_Body req))).
Proof.
  rewrite <- json_Unmarshal_ok_iff with (v := zero_MessageBody).
  destruct (Handle_paths nats req)
    as [[e Hc]|[(nc & mb & je & Hc & Hu)|(nc & mb & Hc & Hu & _)]].
  - rewrite (publishes_connect_fails _ _ _ Hc). split; [congruence|].
    intros [[nc Hc'] _]. congruence.
  - rewrite (publishes_decode_fails _ _ _ _ _ Hc Hu). split; [congruence|].
    intros [_ H]. rewrite Hu in H. discriminate.
  - rewrite (publishes_decoded _ _ _ _ Hc Hu). split; [|discriminate].
    intros _. rewrite Hu. eauto.
Qed.

(** X12. The subject and the reply address of a publish are read off the
    members of the body: the runner is the string of the last member
    whose key is "runner" in any case and whose value is a string, the
    inbox id likewise for "inbox_id", and each is empty when the body
    has no such member. *)
Theorem published_routing_from_last_members nats req subj reply data :
  In (subj, reply, data) (publishes (trace nats req)) ->
  let ms := members_of (json.val (json.checkValid (req_Body req))) in
  subj = field_string decode.FRunner ms +++ ".response" /\
  reply = field_string decode.FInboxId ms.
Proof.
  intros Hin.
  destruct (publish_routing _ _ _ _ _ Hin) as (mb & Hu & -> & ->).
  pose proof (envelope_fields _ (json_Unmarshal_ok_valid _ _ _ Hu)) as F.
  cbn zeta in *. rewrite Hu in F. cbn [fst] in F.
  destruct F as [-> ->]. split; reflexivity.
Qed.

Lemma published_routing_from_last_members_witness :
  In ("w2.response", "in7", Bytes.TrimSpace envelope_spellings)
     (publishes (trace nats_ok (mkRequest envelope_spellings))) /\
  "w2.response"
  = field_string decode.FRunner
      (members_of (json.val (json.checkValid
                               (req_Body (mkRequest envelope_spellings)))))
    +++ ".response" /\
  "in7"
  = field_string decode.FInboxId
      (members_of (json.val (json.checkValid
                               (req_Body (mkRequest envelope_spellings))))).
Proof.
  split; [vm_compute; left; reflexivity|].
  apply (published_routing_from_last_members nats_ok
           (mkRequest envelope_spellings) "w2.response" "in7"
           (Bytes.TrimSpace envelope_spellings)).
  vm_compute. left. reflexivity.
Defined.
